(** * Structure increment generator (scripts/methane_o2_structure_increments.py)

    A shallow embedding of [increment_and_write_xyz] and of the Python
    built-ins it relies on:

    - binary64 floats are Rocq's primitive floats; [float(s)] and the
      [".Nf"] format specification are modelled exactly (correct rounding,
      ties to even) through the exact rational value of a float;
    - strings are byte strings (ASCII input is assumed), and a line break
      is written as it is (as on POSIX);
    - the file system is a finite map from paths to nodes, a node being a
      directory or a regular file with its bytes (no links, no
      permissions), and the generator runs in a state-and-exception monad
      over it;
    - the [while] loop is bounded by a fuel argument, with a distinct
      outcome for a loop that is still running when the fuel is spent.

    Two further modules embed what the plot scripts do to plain data:
    the selection of methods and the conversion of the CID column in
    scripts/ctcharge_methaneo2.py, and the reset to the dissociation
    limit in scripts/energies_nh4f.py. *)

From Stdlib Require Import ZArith List String Ascii Floats Lia DecimalString.
From stdpp Require Import gmap strings list.

Local Open Scope string_scope.
Local Open Scope list_scope.
Local Open Scope Z_scope.

(** ** Python strings *)

Module PyStr.

(** Every character of [s] satisfies [P]. *)
Fixpoint all_chars (P : ascii -> bool) (s : string) : bool :=
  match s with
  | EmptyString => true
  | String c s' => P c && all_chars P s'
  end.

Fixpoint replicate_char (n : nat) (c : ascii) : string :=
  match n with
  | O => EmptyString
  | S n' => String c (replicate_char n' c)
  end.

(** [f"{s:<w}"]: left-justified in a field of [w] characters; a longer
    string is kept whole. *)
Definition ljust (w : nat) (s : string) : string :=
  s +:+ replicate_char (w - String.length s) " ".

(** [f"{...:>w}"]: right-justified in a field of [w] characters. *)
Definition rjust (w : nat) (s : string) : string :=
  replicate_char (w - String.length s) " " +:+ s.

(** [str.isspace] on one ASCII character: TAB, LF, VT, FF, CR, the four
    separators FS GS RS US, and the space. *)
Definition is_space (c : ascii) : bool :=
  let n := nat_of_ascii c in
  ((9 <=? n)%nat && (n <=? 13)%nat) || ((28 <=? n)%nat && (n <=? 32)%nat).

(** [s.split()]: the maximal runs of non-whitespace characters, in order.
    [cur] is the token being read, in reverse. *)
Fixpoint split_ws (cur : list ascii) (s : string) : list string :=
  match s with
  | EmptyString =>
      match cur with
      | [] => []
      | _ => [string_of_list_ascii (rev cur)]
      end
  | String c s' =>
      if is_space c then
        match cur with
        | [] => split_ws [] s'
        | _ => string_of_list_ascii (rev cur) :: split_ws [] s'
        end
      else split_ws (c :: cur) s'
  end.

Definition split (s : string) : list string := split_ws [] s.

(** ["sep".join(l)] *)
Fixpoint join (sep : string) (l : list string) : string :=
  match l with
  | [] => ""
  | [x] => x
  | x :: l' => x +:+ sep +:+ join sep l'
  end.

Definition LF : ascii := ascii_of_nat 10.
Definition CR : ascii := ascii_of_nat 13.

(** Text-mode reading translates ["\r\n"] and a lone ["\r"] to ["\n"]. *)
Fixpoint universal_newlines (s : string) : string :=
  match s with
  | EmptyString => EmptyString
  | String c s' =>
      if Ascii.eqb c CR then
        match s' with
        | String c' s'' =>
            if Ascii.eqb c' LF then String LF (universal_newlines s'')
            else String LF (universal_newlines s')
        | EmptyString => String LF EmptyString
        end
      else String c (universal_newlines s')
  end.

(** Lines of a text, each with its terminating ["\n"] when it has one. *)
Fixpoint lines_keepends (cur : list ascii) (s : string) : list string :=
  match s with
  | EmptyString =>
      match cur with
      | [] => []
      | _ => [string_of_list_ascii (rev cur)]
      end
  | String c s' =>
      if Ascii.eqb c LF
      then string_of_list_ascii (rev (c :: cur)) :: lines_keepends [] s'
      else lines_keepends (c :: cur) s'
  end.

(** [f.readlines()] on a file opened in text mode. *)
Definition readlines (content : string) : list string :=
  lines_keepends [] (universal_newlines content).

End PyStr.

(** ** Python floats: [float(s)] and [format(x, ".Nf")] *)

Module PyFloat.

(** Nearest integer to [n / d], ties to even ([0 <= n], [0 < d]). *)
Definition round_half_even (n d : Z) : Z :=
  let q := n / d in
  let r := n mod d in
  match 2 * r ?= d with
  | Lt => q
  | Gt => q + 1
  | Eq => if Z.even q then q else q + 1
  end.

(** [2^l <= n / d], for any sign of [l]. *)
Definition ge_pow2 (n d l : Z) : bool :=
  if 0 <=? l then d * 2 ^ l <=? n else d <=? n * 2 ^ (- l).

(** The binary64 value nearest to [n / d] (ties to even), with sign [neg]:
    what a correctly rounded decimal-to-binary conversion returns.
    Overflow gives an infinity, underflow a signed zero. *)
Definition of_ratio (neg : bool) (n d : positive) : float :=
  let l0 := Z.log2 (Zpos n) - Z.log2 (Zpos d) in
  let l := if ge_pow2 (Zpos n) (Zpos d) l0 then l0 else l0 - 1 in
  let ex := Z.max (l - 52) (-1074) in
  let q := if 0 <=? ex then round_half_even (Zpos n) (Zpos d * 2 ^ ex)
           else round_half_even (Zpos n * 2 ^ (- ex)) (Zpos d) in
  match q with
  | Zpos m => SF2Prim (S754_finite neg m ex)
  | _ => SF2Prim (S754_zero neg)
  end.

(** The value [m * 10^e] as a float. *)
Definition of_decimal (neg : bool) (m e : Z) : float :=
  match m with
  | Zpos p =>
      if 0 <=? e then of_ratio neg (p * Z.to_pos (10 ^ e)) 1
      else of_ratio neg p (Z.to_pos (10 ^ (- e)))
  | _ => SF2Prim (S754_zero neg)
  end.

Definition is_digit (c : ascii) : bool :=
  let n := nat_of_ascii c in (48 <=? n)%nat && (n <=? 57)%nat.

Definition digit_value (c : ascii) : Z := Z.of_nat (nat_of_ascii c) - 48.

(** Value of a string of decimal digits, most significant first. *)
Fixpoint digits_value (acc : Z) (s : string) : Z :=
  match s with
  | EmptyString => acc
  | String c s' => digits_value (10 * acc + digit_value c) s'
  end.

(** The longest prefix of [s] of the shape [(["_"] digit)*]: its digits
    (underscores dropped) and what follows it. *)
Fixpoint digitpart_tail (s : string) : string * string :=
  match s with
  | String c s' =>
      if is_digit c then
        let (ds, r) := digitpart_tail s' in (String c ds, r)
      else if Ascii.eqb c "_" then
        match s' with
        | String c' s'' =>
            if is_digit c' then
              let (ds, r) := digitpart_tail s'' in (String c' ds, r)
            else (EmptyString, s)
        | EmptyString => (EmptyString, s)
        end
      else (EmptyString, s)
  | EmptyString => (EmptyString, EmptyString)
  end.

(** [digitpart ::= digit (["_"] digit)*], when [s] starts with one;
    otherwise no digit is consumed. *)
Definition digitpart (s : string) : string * string :=
  match s with
  | String c s' =>
      if is_digit c then
        let (ds, r) := digitpart_tail s' in (String c ds, r)
      else (EmptyString, s)
  | EmptyString => (EmptyString, EmptyString)
  end.

(** An optional sign: [true] for ["-"]. *)
Definition sign (s : string) : bool * string :=
  match s with
  | String c s' =>
      if Ascii.eqb c "-" then (true, s')
      else if Ascii.eqb c "+" then (false, s')
      else (false, s)
  | EmptyString => (false, s)
  end.

Definition lower (c : ascii) : ascii :=
  let n := nat_of_ascii c in
  if (65 <=? n)%nat && (n <=? 90)%nat then ascii_of_nat (n + 32) else c.

Fixpoint lowercase (s : string) : string :=
  match s with
  | EmptyString => EmptyString
  | String c s' => String (lower c) (lowercase s')
  end.

(** [exponent ::= ("e" | "E") [sign] digitpart], or nothing; the input
    must end there. *)
Definition exponent (s : string) : option Z :=
  match s with
  | EmptyString => Some 0
  | String c s' =>
      if Ascii.eqb (lower c) "e" then
        let (neg, s1) := sign s' in
        match digitpart s1 with
        | (String d ds, EmptyString) =>
            let v := digits_value 0 (String d ds) in
            Some (if neg then - v else v)
        | _ => None
        end
      else None
  end.

(** [floatnumber ::= ([digitpart] "." digitpart | digitpart ["."]) [exponent]] *)
Definition floatnumber (neg : bool) (s : string) : option float :=
  let (ip, r1) := digitpart s in
  let '(fp, r2) :=
    match r1 with
    | String c r => if Ascii.eqb c "." then digitpart r else (EmptyString, r1)
    | EmptyString => (EmptyString, r1)
    end in
  match ip +:+ fp with
  | EmptyString => None
  | ds =>
      match exponent r2 with
      | Some e =>
          Some (of_decimal neg (digits_value 0 ds) (e - Z.of_nat (String.length fp)))
      | None => None
      end
  end.

(** [float(s)] for a string without surrounding whitespace (the tokens
    of [str.split] have none): [None] stands for [ValueError]. *)
Definition float_of_string (s : string) : option float :=
  let (neg, body) := sign s in
  let low := lowercase body in
  if String.eqb low "inf" || String.eqb low "infinity"
  then Some (if neg then neg_infinity else infinity)
  else if String.eqb low "nan" then Some nan
  else floatnumber neg body.

(** Decimal digits of a natural number, without leading zeros (["0"] for 0). *)
Definition decimal (n : N) : string := NilZero.string_of_uint (N.to_uint n).

(** [digits] split [p] places from the right by a decimal point, after
    padding with zeros on the left to at least [p + 1] digits. *)
Definition point (p : nat) (digits : string) : string :=
  let s := PyStr.replicate_char (S p - String.length digits) "0" +:+ digits in
  let k := (String.length s - p)%nat in
  match p with
  | O => s
  | _ => substring 0 k s +:+ "." +:+ substring k p s
  end.

(** [round(|x| * 10^p)] for the finite float of mantissa [m] and binary
    exponent [e]. *)
Definition scaled (p : nat) (m : positive) (e : Z) : Z :=
  if 0 <=? e then Zpos m * 2 ^ e * 10 ^ Z.of_nat p
  else round_half_even (Zpos m * 10 ^ Z.of_nat p) (2 ^ (- e)).

(** [format(x, ".pf")]. *)
Definition format_f (p : nat) (x : float) : string :=
  match Prim2SF x with
  | S754_nan => "nan"
  | S754_infinity s => (if s then "-" else "") +:+ "inf"
  | S754_zero s => (if s then "-" else "") +:+ point p "0"
  | S754_finite s m e =>
      (if s then "-" else "") +:+ point p (decimal (Z.to_N (scaled p m e)))
  end.

End PyFloat.

(** ** Exceptions, and the state-and-exception monad over the file system *)

Inductive exn : Type :=
  | IndexError
  | ValueError
  | FileNotFoundError
  | FileExistsError
  | IsADirectoryError
  | NotADirectoryError
  | SameFileError.

(** A pure computation that may raise. *)
Inductive result (A : Type) : Type :=
  | Ok (a : A)
  | Err (e : exn).
Arguments Ok {A} a.
Arguments Err {A} e.

Definition rbind {A B : Type} (r : result A) (k : A -> result B) : result B :=
  match r with
  | Ok a => k a
  | Err e => Err e
  end.

(** A path is the list of its components, relative to a base directory
    that exists (the empty path). *)
Abbreviation path := (list string).

Inductive node : Type :=
  | Dir
  | File (content : string).

Abbreviation fs := (gmap path node).

(** How a computation ends: normally, with an exception, or still inside
    the sweep loop when the fuel is spent. *)
Inductive outcome (A : Type) : Type :=
  | Done (a : A)
  | Raised (e : exn)
  | Timeout.
Arguments Done {A} a.
Arguments Raised {A} e.
Arguments Timeout {A}.

(** The file system is threaded through; on an exception it is left as
    it was when the exception was raised (nothing is rolled back). *)
Definition M (A : Type) : Type := fs -> outcome A * fs.

Definition ret {A : Type} (a : A) : M A := fun s => (Done a, s).

Definition raise {A : Type} (e : exn) : M A := fun s => (Raised e, s).

Definition timeout {A : Type} : M A := fun s => (Timeout, s).

Definition bind {A B : Type} (m : M A) (k : A -> M B) : M B :=
  fun s =>
    match m s with
    | (Done a, s') => k a s'
    | (Raised e, s') => (Raised e, s')
    | (Timeout, s') => (Timeout, s')
    end.

Definition lift {A : Type} (r : result A) : M A :=
  match r with
  | Ok a => ret a
  | Err e => raise e
  end.

Declare Scope py_scope.
Delimit Scope py_scope with py.
Notation "x <- m ;; k" := (bind m (fun x => k))
  (at level 100, m at next level, right associativity) : py_scope.
Notation "m ;;; k" := (bind m (fun _ => k))
  (at level 100, right associativity) : py_scope.
Notation "x <~ r ;; k" := (rbind r (fun x => k))
  (at level 100, r at next level, right associativity) : py_scope.

(** ** File-system operations *)

Module FS.

Definition parent (p : path) : path := removelast p.

(** [Path.name]: the last component. *)
Definition name (p : path) : string := List.last p EmptyString.

(** [p / c] *)
Definition child (p : path) (c : string) : path := p ++ [c].

Definition node_at (s : fs) (p : path) : option node :=
  match p with
  | [] => Some Dir
  | _ => s !! p
  end.

Definition is_dir (s : fs) (p : path) : bool :=
  match node_at s p with
  | Some Dir => true
  | _ => false
  end.

(** [os.mkdir(p)] *)
Definition os_mkdir (p : path) : M unit := fun s =>
  match node_at s p with
  | Some _ => (Raised FileExistsError, s)
  | None =>
      match node_at s (parent p) with
      | Some Dir => (Done tt, <[p := Dir]> s)
      | Some (File _) => (Raised NotADirectoryError, s)
      | None => (Raised FileNotFoundError, s)
      end
  end.

(** [Path.mkdir(parents=..., exist_ok=...)], as pathlib writes it: try
    [os.mkdir]; on [FileNotFoundError] create the parent first (when
    [parents]) and try again; on any other [OSError] re-raise unless
    [exist_ok] and the path is a directory. [depth] bounds the climb to
    the parents and is the length of the path. *)
Fixpoint path_mkdir (depth : nat) (parents exist_ok : bool) (p : path) : M unit :=
  fun s =>
    match os_mkdir p s with
    | (Raised FileNotFoundError, _) =>
        match parents, depth with
        | true, S depth' =>
            bind (path_mkdir depth' true true (parent p))
                 (fun _ => path_mkdir depth' false exist_ok p) s
        | _, _ => (Raised FileNotFoundError, s)
        end
    | (Raised e, _) =>
        if exist_ok && is_dir s p then (Done tt, s) else (Raised e, s)
    | r => r
    end.

Definition mkdir (parents exist_ok : bool) (p : path) : M unit :=
  path_mkdir (length p) parents exist_ok p.

(** [open(p, "r")] and reading everything. *)
Definition read_text (p : path) : M string := fun s =>
  match node_at s p with
  | Some (File content) => (Done content, s)
  | Some Dir => (Raised IsADirectoryError, s)
  | None => (Raised FileNotFoundError, s)
  end.

(** [open(p, "w")], writing [content] and closing: the file is created
    or replaced; its directory must exist. *)
Definition write_text (p : path) (content : string) : M unit := fun s =>
  match node_at s (parent p) with
  | Some Dir =>
      match node_at s p with
      | Some Dir => (Raised IsADirectoryError, s)
      | _ => (Done tt, <[p := File content]> s)
      end
  | Some (File _) => (Raised NotADirectoryError, s)
  | None => (Raised FileNotFoundError, s)
  end.

(** [shutil.copy(src, dst)]: a destination that is a directory receives
    the copy under the source's name; the bytes are read from [src] and
    written to the destination. *)
Definition copy (src dst : path) : M unit := fun s =>
  let dst' := if is_dir s dst then child dst (name src) else dst in
  if decide (src = dst') then (Raised SameFileError, s)
  else bind (read_text src) (fun content => write_text dst' content) s.

End FS.

(** ** The generator *)

Module Generator.
Import PyStr PyFloat FS.
Local Open Scope py_scope.

(** [l[i]] *)
Definition index (l : list string) (i : nat) : result string :=
  match l !! i with
  | Some x => Ok x
  | None => Err IndexError
  end.

(** [float(s)] *)
Definition float_ (s : string) : result float :=
  match float_of_string s with
  | Some x => Ok x
  | None => Err ValueError
  end.

(** The sentinel [2.0] of the selection rule. *)
Definition sentinel : float := 2%float.

(** [f"{x:>14.8f}"] *)
Definition coord (x : float) : string := rjust 14 (format_f 8 x).

(** The canonical line of an atom, from its tokens:
    [f"{parts[0]:<2} {float(parts[1]):>14.8f} {float(parts[2]):>14.8f} {float(parts[3]):>14.8f}"] *)
Definition formatted_atom (parts : list string) : result string :=
  sym <~ index parts 0 ;;
  x <~ rbind (index parts 1) float_ ;;
  y <~ rbind (index parts 2) float_ ;;
  z <~ rbind (index parts 3) float_ ;;
  Ok (ljust 2 sym +:+ " " +:+ coord x +:+ " " +:+ coord y +:+ " " +:+ coord z).

(** The selection rule: [parts[0] == "O" and float(parts[2]) == 2.0]
    ([and] does not evaluate its second operand when the first is false). *)
Definition selected (parts : list string) : result bool :=
  sym <~ index parts 0 ;;
  if String.eqb sym "O" then
    tok <~ index parts 2 ;;
    y <~ float_ tok ;;
    Ok (PrimFloat.eqb y sentinel)
  else Ok false.

(** One turn of the loop over the atom lines. *)
Definition modified_atom (current_y : float) (atom : string) : result string :=
  let parts := split atom in
  sel <~ selected parts ;;
  let parts := if sel then <[2%nat := format_f 6 current_y]> parts else parts in
  formatted_atom parts.

Fixpoint modified_atoms (current_y : float) (atoms : list string)
  : result (list string) :=
  match atoms with
  | [] => Ok []
  | atom :: atoms' =>
      line <~ modified_atom current_y atom ;;
      rest <~ modified_atoms current_y atoms' ;;
      Ok (line :: rest)
  end.

(** [f"{current_y:.1f}A"] *)
Definition dir_name (current_y : float) : string := format_f 1 current_y +:+ "A".

Definition NL : string := String LF EmptyString.

(** What is written to the geometry file of a step. *)
Definition xyz_text (header modified : list string) : string :=
  String.concat EmptyString header +:+ join NL modified +:+ NL.

(** [output_dir / f"{current_y:.1f}A"]; the name holds no separator
    (see [dir_name_chars]), so it is one component. *)
Definition increment_dir (output_dir : path) (current_y : float) : path :=
  child output_dir (dir_name current_y).

(** [increment_dir / f"{current_y:.1f}A.xyz"] *)
Definition increment_file (output_dir : path) (current_y : float) : path :=
  child (increment_dir output_dir current_y) (dir_name current_y +:+ ".xyz").

(** [increment_dir / "struc.xyz"] *)
Definition struc_file (output_dir : path) (current_y : float) : path :=
  child (increment_dir output_dir current_y) "struc.xyz".

(** The body of the [while] loop, up to the update of [current_y]; it
    returns the extended [all_directories]. *)
Definition sweep_step (header atoms : list string) (output_dir : path)
    (current_y : float) (all_directories : list path) : M (list path) :=
  modified <- lift (modified_atoms current_y atoms) ;;
  mkdir true true (increment_dir output_dir current_y) ;;;
  let all_directories := all_directories ++ [increment_dir output_dir current_y] in
  write_text (increment_file output_dir current_y) (xyz_text header modified) ;;;
  copy (increment_file output_dir current_y) (struc_file output_dir current_y) ;;;
  ret all_directories.

(** [while current_y <= stop: ...; current_y += step], at most [fuel]
    turns. *)
Fixpoint sweep (fuel : nat) (header atoms : list string) (output_dir : path)
    (stop step current_y : float) (all_directories : list path)
  : M (list path) :=
  if PrimFloat.leb current_y stop then
    match fuel with
    | O => timeout
    | S fuel' =>
        dirs <- sweep_step header atoms output_dir current_y all_directories ;;
        sweep fuel' header atoms output_dir stop step
              (PrimFloat.add current_y step) dirs
    end
  else ret all_directories.

(** The values [current_y] takes in the loop, in order: the loop without
    its body. [None] when the loop is still running after [fuel] turns. *)
Fixpoint sweep_values (fuel : nat) (stop step current_y : float)
  : option (list float) :=
  if PrimFloat.leb current_y stop then
    match fuel with
    | O => None
    | S fuel' =>
        option_map (cons current_y)
          (sweep_values fuel' stop step (PrimFloat.add current_y step))
    end
  else Some [].

(** The variables of the loop. *)
Record loop_state : Type := {
  current_y : float;
  all_directories : list path;
  files : fs
}.

(** [iterates h a out stop step k st st']: from [st], [k] turns of the
    loop complete without an exception and leave the variables as [st']. *)
Inductive iterates (header atoms : list string) (output_dir : path)
    (stop step : float) : nat -> loop_state -> loop_state -> Prop :=
  | iterates_here st : iterates header atoms output_dir stop step 0 st st
  | iterates_turn k st dirs t st' :
      PrimFloat.leb (current_y st) stop = true ->
      sweep_step header atoms output_dir (current_y st) (all_directories st)
        (files st) = (Done dirs, t) ->
      iterates header atoms output_dir stop step k
        {| current_y := PrimFloat.add (current_y st) step;
           all_directories := dirs; files := t |} st' ->
      iterates header atoms output_dir stop step (S k) st st'.

(** One line per recorded directory: [f"{directory.name}\n"]. *)
Definition manifest_text (all_directories : list path) : string :=
  String.concat EmptyString (map (fun d => name d +:+ NL) all_directories).

Definition manifest (output_dir : path) : path := child output_dir ".list.dirs".

Definition increment_and_write_xyz (fuel : nat) (input_file output_dir : path)
    (start stop step : float) : M unit :=
  content <- read_text input_file ;;
  let lines := readlines content in
  let header := take 2 lines in
  let atoms := drop 2 lines in
  dirs <- sweep fuel header atoms output_dir stop step start [] ;;
  write_text (manifest output_dir) (manifest_text dirs).

(** The parameters the script is run with. *)
Definition input_xyz : path := ["ch4o2.xyz"].
Definition output_base_dir : path := ["output_xyz"].
Definition start_increment : float := 1.5%float.
Definition stop_increment : float := 8%float.
(** [0.1]: the binary64 value nearest to one tenth. *)
Definition step_increment : float := 0x1.999999999999ap-4%float.

(** The script: the output root is made, then the generator is run. *)
Definition script (fuel : nat) : M unit :=
  mkdir false true output_base_dir ;;;
  increment_and_write_xyz fuel input_xyz output_base_dir
    start_increment stop_increment step_increment.

End Generator.

(** ** The charge plot (scripts/ctcharge_methaneo2.py)

    What [main] does to the list of methods under [--gas] and
    [--solvation], and to the entries of the CID column. *)

Module Charges.
Import PyFloat.

(** [s.endswith(suffix)] *)
Definition endswith (s suffix : string) : bool :=
  let n := String.length s in
  let k := String.length suffix in
  (k <=? n)%nat && String.eqb (substring (n - k)%nat k s) suffix.

(** The test of the [--gas] comprehension. *)
Definition gas_phase (method : string) : bool :=
  negb (endswith method "_DIELECTRIC") && negb (endswith method "_CPCM").

(** The test of the [--solvation] comprehension. *)
Definition solvated (method : string) : bool :=
  endswith method "_DIELECTRIC" || endswith method "_CPCM".

(** The two [if] blocks of [main] on [methods], in their order: under
    [args.gas] the methods with a solvation suffix are dropped, then
    under [args.solvation] only those with one are kept. *)
Definition select_methods (gas solvation : bool) (methods : list string)
  : list string :=
  let methods := if gas then List.filter gas_phase methods else methods in
  let methods := if solvation then List.filter solvated methods else methods in
  methods.

(** [s.replace(old, "")] for a one-character [old]. *)
Fixpoint remove_char (old : ascii) (s : string) : string :=
  match s with
  | EmptyString => EmptyString
  | String c s' =>
      if Ascii.eqb c old then remove_char old s'
      else String c (remove_char old s')
  end.

(** One entry of [df["CID"].str.replace("A", "").astype(float)]; [None]
    stands for the [ValueError] of the conversion. *)
Definition cid_value (cid : string) : option float :=
  float_of_string (remove_char "A" cid).

End Charges.

(** ** The energy plot (scripts/energies_nh4f.py)

    The [--set-to-zero] loop of [main] over the method columns of the
    pivoted table, a column being the list of its binary64 values. *)

Module Energies.

(** [627.50947428]: the binary64 value nearest to it. *)
Definition HARTREE_TO_KCAL : float := 0x1.39c1367405606p+9%float.

(** The columns of the pivoted table, by name. *)
Abbreviation frame := (gmap string (list float)).

Inductive frame_exn : Type :=
  | KeyError (column : string)
  | IndexError_iloc.

Inductive frame_result (A : Type) : Type :=
  | Fine (a : A)
  | Failed (e : frame_exn).
Arguments Fine {A} a.
Arguments Failed {A} e.

(** [df[name]] *)
Definition column (df : frame) (name : string) : frame_result (list float) :=
  match df !! name with
  | Some col => Fine col
  | None => Failed (KeyError name)
  end.

(** [col.iloc[-1]] *)
Definition iloc_last (col : list float) : frame_result float :=
  match last col with
  | Some x => Fine x
  | None => Failed IndexError_iloc
  end.

(** The body of the loop:
    [df[method] -= df[args.set_to_zero].iloc[-1]] and then
    [df[method] *= HARTREE_TO_KCAL]. *)
Definition shift_and_scale (set_to_zero method : string) (df : frame)
  : frame_result frame :=
  match column df method with
  | Failed e => Failed e
  | Fine col =>
      match column df set_to_zero with
      | Failed e => Failed e
      | Fine ref =>
          match iloc_last ref with
          | Failed e => Failed e
          | Fine r =>
              let df := <[method := map (fun x => PrimFloat.sub x r) col]> df in
              match column df method with
              | Failed e => Failed e
              | Fine col =>
                  Fine (<[method :=
                            map (fun x => PrimFloat.mul x HARTREE_TO_KCAL) col]> df)
              end
          end
      end
  end.

(** [for method in methods: ...] *)
Fixpoint reset_to_limit (set_to_zero : string) (methods : list string)
    (df : frame) : frame_result frame :=
  match methods with
  | [] => Fine df
  | method :: methods' =>
      match shift_and_scale set_to_zero method df with
      | Fine df' => reset_to_limit set_to_zero methods' df'
      | Failed e => Failed e
      end
  end.

End Energies.

(** ** Vocabulary of the statements

    Relations between file systems, character classes, the shape of an
    atom line, and the concrete inputs of the examples. *)

Import PyStr PyFloat FS Generator.
Local Close Scope Z_scope.
Local Open Scope py_scope.

(** The kind of a node: [true] for a directory. *)
Definition kind (o : option node) : option bool :=
  match o with
  | Some Dir => Some true
  | Some (File _) => Some false
  | None => None
  end.

(** Nothing disappears and nothing changes kind from [s] to [t]. *)
Definition grows (s t : fs) : Prop :=
  forall p, is_Some (s !! p) -> kind (t !! p) = kind (s !! p).

(** A change made by [mkdir]: a missing path, on the way to [p], that is
    now a directory. *)
Definition made (p : path) (s t : fs) : Prop :=
  forall q, t !! q = s !! q \/ (s !! q = None /\ t !! q = Some Dir /\ q `prefix_of` p).

(** The path [shutil.copy] writes to. *)
Definition copy_target (s : fs) (src dst : path) : path :=
  if is_dir s dst then child dst (name src) else dst.

(** The paths a step may touch: the output root and what is above it
    (made by [mkdir] when missing), and the step's own directory with
    what is below it. *)
Definition in_reach (out : path) (y : float) (q : path) : Prop :=
  q `prefix_of` out \/ increment_dir out y `prefix_of` q.

(** The second run against the first. [final] is where the first run
    ended; [s] is a state of the first run and [s'] the state of the
    second run at the same point: every path of [s'] already holds what
    it holds at the end, or holds what the first run had there. *)
Definition follows (final s s' : fs) : Prop :=
  forall q, s' !! q = final !! q \/ (s' !! q = s !! q /\ is_Some (s !! q)).

(** The characters a formatted float is made of. *)
Definition float_char (c : ascii) : bool :=
  is_digit c || Ascii.eqb c "." || Ascii.eqb c "-" ||
  Ascii.eqb c "i" || Ascii.eqb c "n" || Ascii.eqb c "f" || Ascii.eqb c "a".

(** A directory name is made of the characters of a formatted float and
    the final ["A"]: it holds no path separator, no line break, and is
    not empty. *)
Definition name_char (c : ascii) : bool := float_char c || Ascii.eqb c "A".

(** A character that is neither a path separator nor a line break. *)
Definition plain_char (c : ascii) : bool :=
  negb (Ascii.eqb c "/") && negb (Ascii.eqb c LF).

Fixpoint last_char (s : string) : option ascii :=
  match s with
  | EmptyString => None
  | String c EmptyString => Some c
  | String _ s' => last_char s'
  end.

(** A character that ends a run of digits. *)
Definition stops (r : string) : Prop :=
  match r with
  | EmptyString => True
  | String c _ => is_digit c = false /\ c <> "_"%char
  end.

(** A number in fixed notation: digits, then a point and digits when
    there are decimals. *)
Inductive fixed_number : string -> Prop :=
  | fixed_int c ds :
      all_chars is_digit (String c ds) = true -> fixed_number (String c ds)
  | fixed_frac c ds fs :
      all_chars is_digit (String c ds) = true -> all_chars is_digit fs = true ->
      fixed_number (String c ds +:+ "." +:+ fs).

(** [float(tok)] does not raise. *)
Definition numeric (tok : string) : bool :=
  match float_of_string tok with
  | Some _ => true
  | None => false
  end.

(** An atom line as the input format wants it: at least four tokens, the
    three after the symbol numeric. *)
Definition well_formed (atom : string) : bool :=
  match split atom with
  | _ :: x :: y :: z :: _ => numeric x && numeric y && numeric z
  | _ => false
  end.

(** The canonical layout of a line: the symbol in a field of 2, each
    coordinate in a field of 14 with 8 decimals, single spaces between. *)
Definition canonical (sym : string) (x y z : float) : string :=
  ljust 2 sym +:+ " " +:+ coord x +:+ " " +:+ coord y +:+ " " +:+ coord z.

(** The exceptions a malformed line raises. *)
Definition parse_error (e : exn) : Prop := e = IndexError \/ e = ValueError.

(** Each line followed by a line break. *)
Definition lines_text (lines : list string) : string :=
  String.concat EmptyString (map (fun l => l +:+ NL) lines).

(** A small geometry: two header lines and three atoms, one of them an
    oxygen at [y = 2.0]. *)
Definition sample_geometry : string :=
  lines_text ["3"; "sample";
        "C 0.00000000 0.00000000 0.00000000";
        "O 0.00000000 2.00000000 0.00000000";
        "H 1.00000000 0.50000000 0.00000000"].

(** The oxygen line of [sample_geometry], as [readlines] returns it. *)
Definition oxygen_line : string := "O 0.00000000 2.00000000 0.00000000" +:+ NL.

(** Its hydrogen line: not an oxygen, and [y] is not [2.0]. *)
Definition hydrogen_line : string := "H 1.00000000 0.50000000 0.00000000" +:+ NL.

(** Its header and its atom lines, as the generator splits them. *)
Definition sample_header : list string := take 2 (readlines sample_geometry).

Definition sample_atoms : list string := drop 2 (readlines sample_geometry).

(** A file system with the input file and an empty output root. *)
Definition sample_fs : fs :=
  <[output_base_dir := Dir]> (<[input_xyz := File sample_geometry]> ∅).

(** The sample file system with a regular file where the second step of
    a sweep from 1.0 by 0.5 wants its directory. *)
Definition blocked_fs : fs :=
  <[child output_base_dir "1.5A" := File EmptyString]> sample_fs.

(** The sample file system with a manifest left by an earlier run. *)
Definition stale_fs : fs :=
  <[manifest output_base_dir := File (lines_text ["1.5A"; "1.6A"])]> sample_fs.

(** A geometry whose only atom line has three tokens, the last of them
    not a number. *)
Definition malformed_geometry : string := lines_text ["1"; "broken"; "C 0.0 zero"].

Definition malformed_line : string := "C 0.0 zero" +:+ NL.

(** [3.477]: the binary64 value nearest to it. *)
Definition y_3_477 : float := 0x1.bd0e560418937p+1%float.

(** The names ["1.5A"], ["1.6A"], ..., ["8.0A"]: the tenths from 15 to 80. *)
Definition expected_names : list string :=
  map (fun k => decimal (N.of_nat (15 + k) / 10) +:+ "." +:+
                decimal (N.of_nat (15 + k) mod 10) +:+ "A")
      (seq 0 66).

(** The values of the sweep run with the script's parameters. *)
Definition literal_values : list float :=
  Eval vm_compute in
    default [] (sweep_values 66 stop_increment step_increment start_increment).

(** A change the generator may make at a path: none; a missing directory
    on the way to the output root, made; or anything, strictly below the
    output root. *)
Definition touched (out : path) (s t : fs) (q : path) : Prop :=
  t !! q = s !! q \/
  (q `prefix_of` out /\ s !! q = None /\ t !! q = Some Dir) \/
  (out `prefix_of` q /\ q <> out).

(** A character that is not whitespace. *)
Definition solid_char (c : ascii) : bool := negb (is_space c).

(** A token: not empty, and free of whitespace. *)
Definition token (t : string) : Prop :=
  t <> EmptyString /\ all_chars solid_char t = true.

(** A column shifted by [r] and converted. *)
Definition shifted (r : float) (col : list float) : list float :=
  map (fun x => PrimFloat.mul (PrimFloat.sub x r) Energies.HARTREE_TO_KCAL) col.

(** A column converted only. *)
Definition scaled_only (col : list float) : list float :=
  map (fun x => PrimFloat.mul x Energies.HARTREE_TO_KCAL) col.

(** A table of three methods and two distances. *)
Definition sample_frame : Energies.frame :=
  <["a" := [3; 2]%float]> (<["b" := [2; 1]%float]> (<["c" := [5; 4]%float]> ∅)).

(** The values are in strictly increasing order. *)
Definition increasing (vs : list float) : Prop :=
  forall i j a b, (i < j)%nat -> vs !! i = Some a -> vs !! j = Some b ->
                  PrimFloat.ltb a b = true.

(** The magnitude of the float [r] is at least that of the mantissa [m]
    at the exponent [e], both in the form the format gives them. *)
Definition mag_ge (r : spec_float) (m : positive) (e : Z) : Prop :=
  match r with
  | S754_infinity _ => True
  | S754_finite _ m' e' => (e < e')%Z \/ (e = e' /\ (m <= m')%positive)
  | _ => False
  end.

(** The magnitude of the float [r] is at most that of the mantissa [m]
    at the exponent [e]. *)
Definition mag_le (r : spec_float) (m : positive) (e : Z) : Prop :=
  match r with
  | S754_finite _ m' e' => (e' < e)%Z \/ (e' = e /\ (m' <= m)%positive)
  | _ => False
  end.

(** What [k] right shifts of the exact mantissa [M] leave: the quotient,
    and flags that are set only when the remainder is not zero. *)
Definition shifted_by (M k : Z) (r : shr_record) : Prop :=
  shr_m r = (M / 2 ^ k)%Z /\
  (shr_r r || shr_s r = true -> (M mod 2 ^ k)%Z <> 0%Z).

(** [field] is [s] followed by spaces, [w] characters long, or [s]
    alone when [s] is longer than that. *)
Definition left_justified (w : nat) (s field : string) : Prop :=
  exists pad,
    field = s +:+ pad /\
    all_chars (Ascii.eqb " ") pad = true /\
    String.length field = Nat.max w (String.length s).

(** [field] is [s] preceded by spaces, [w] characters long, or [s]
    alone when [s] is longer than that. *)
Definition right_justified (w : nat) (s field : string) : Prop :=
  exists pad,
    field = pad +:+ s /\
    all_chars (Ascii.eqb " ") pad = true /\
    String.length field = Nat.max w (String.length s).

(** The layout of an atom line in the words of the specification: the
    symbol left-justified in a field of 2 characters, each coordinate
    right-justified in a field of 14, single spaces between the fields. *)
Definition fixed_width (line sym cx cy cz : string) : Prop :=
  exists f0 f1 f2 f3,
    line = f0 +:+ " " +:+ f1 +:+ " " +:+ f2 +:+ " " +:+ f3 /\
    left_justified 2 sym f0 /\
    right_justified 14 cx f1 /\
    right_justified 14 cy f2 /\
    right_justified 14 cz f3.

(** A number written with [p] decimals: an optional minus sign, at least
    one digit, a point, and exactly [p] digits. *)
Definition has_decimals (p : nat) (s : string) : Prop :=
  exists sgn ip fp,
    s = sgn +:+ ip +:+ "." +:+ fp /\
    (sgn = EmptyString \/ sgn = "-") /\
    ip <> EmptyString /\
    all_chars is_digit ip = true /\
    all_chars is_digit fp = true /\
    String.length fp = p.

(** [1e-9] and [2.000000001]: the binary64 values nearest to them. *)
Definition nano : float := 0x1.12e0be826d695p-30%float.
Definition above_two : float := 0x1.0000000225c18p+1%float.

(** A geometry with a coordinate below the eighth decimal, and an oxygen
    whose second coordinate is near the sentinel without being it. *)
Definition fine_geometry : string :=
  lines_text ["2"; "fine"; "H 0.000000001 0.0 0.0"; "O 0.0 2.000000001 0.0"].

(** The sample file system with a directory where the copy of the step
    of value 1.0 is to be written. *)
Definition occupied_fs : fs :=
  <[struc_file output_base_dir 1 := Dir]>
    (<[increment_dir output_base_dir 1 := Dir]> sample_fs).

(** ** Facts about the file-system operations *)

Module FSFacts.

Lemma grows_refl s : grows s s.
Proof. intros p _. reflexivity. Qed.

Lemma grows_trans s t u : grows s t -> grows t u -> grows s u.
Proof.
  intros Hst Htu p Hp.
  assert (Hk := Hst p Hp).
  rewrite <- Hk. apply Htu.
  destruct Hp as [n Hn]. rewrite Hn in Hk.
  destruct (t !! p) as [m|]; [eauto | destruct n; discriminate].
Qed.

Lemma node_at_cons s c p : node_at s (c :: p) = s !! (c :: p).
Proof. reflexivity. Qed.

Lemma node_at_lookup s p n : p <> [] -> node_at s p = Some n -> s !! p = Some n.
Proof. destruct p; [congruence | auto]. Qed.

Lemma node_at_insert_ne s p q n : p <> q -> node_at (<[p := n]> s) q = node_at s q.
Proof.
  intros Hne. destruct q as [|c q]; [reflexivity|].
  cbn. by rewrite lookup_insert_ne.
Qed.

Lemma node_at_insert_eq s p n : p <> [] -> node_at (<[p := n]> s) p = Some n.
Proof. destruct p; [congruence|]. intros _. cbn. by rewrite lookup_insert_eq. Qed.

Lemma is_dir_grows s t p : grows s t -> is_dir s p = true -> is_dir t p = true.
Proof.
  unfold is_dir. intros Hg. destruct p as [|c p]; [done|]. cbn.
  destruct (s !! (c :: p)) as [[|]|] eqn:E; try discriminate. intros _.
  specialize (Hg (c :: p)). rewrite E in Hg. specialize (Hg (ltac:(eauto))).
  destruct (t !! (c :: p)) as [[|]|]; done.
Qed.

(** What [os.mkdir] does. *)
Lemma os_mkdir_spec p s :
  (exists e, os_mkdir p s = (Raised e, s)) \/
  (os_mkdir p s = (Done tt, <[p := Dir]> s) /\ node_at s p = None).
Proof.
  unfold os_mkdir. destruct (node_at s p) eqn:E; [eauto|].
  destruct (node_at s (parent p)) as [[|]|]; eauto.
Qed.

Lemma made_refl p s : made p s s.
Proof. intros q. by left. Qed.

Lemma removelast_prefix (p : path) : removelast p `prefix_of` p.
Proof.
  destruct (decide (p = [])) as [->|Hne]; [done|].
  exists [List.last p EmptyString]. by apply app_removelast_last.
Qed.

Lemma made_trans p p' s t u :
  p' `prefix_of` p -> made p' s t -> made p t u -> made p s u.
Proof.
  intros Hpre Hst Htu q.
  destruct (Htu q) as [E|(E1 & E2 & E3)], (Hst q) as [F|(F1 & F2 & F3)].
  - left. congruence.
  - right. split; [done|]. split; [congruence|]. by etrans.
  - right. split; [congruence|]. done.
  - congruence.
Qed.

Lemma path_mkdir_made depth parents exist_ok p s :
  made p s (path_mkdir depth parents exist_ok p s).2.
Proof.
  revert parents exist_ok p s.
  induction depth as [|depth IH]; intros parents exist_ok p s; cbn.
  - destruct (os_mkdir_spec p s) as [[e ->]|[-> Hn]].
    + destruct e, parents, (exist_ok && is_dir s p); cbn; apply made_refl.
    + cbn. intros q. destruct (decide (p = q)) as [<-|Hne].
      * destruct p; [discriminate|]. right. cbn in Hn.
        rewrite lookup_insert_eq. done.
      * left. by rewrite lookup_insert_ne.
  - destruct (os_mkdir_spec p s) as [[e ->]|[-> Hn]].
    + destruct e; try (destruct (exist_ok && is_dir s p); cbn; apply made_refl).
      destruct parents; [|apply made_refl].
      unfold bind.
      assert (H1 := IH true true (parent p) s).
      destruct (path_mkdir depth true true (parent p) s) as [[[]| |] s1]; cbn in *.
      * eapply made_trans; [apply removelast_prefix | exact H1 | apply IH].
      * eapply made_trans; [apply removelast_prefix | exact H1 | apply made_refl].
      * eapply made_trans; [apply removelast_prefix | exact H1 | apply made_refl].
    + cbn. intros q. destruct (decide (p = q)) as [<-|Hne].
      * destruct p; [discriminate|]. right. cbn in Hn.
        rewrite lookup_insert_eq. done.
      * left. by rewrite lookup_insert_ne.
Qed.

Lemma path_mkdir_done depth parents exist_ok p s t :
  path_mkdir depth parents exist_ok p s = (Done tt, t) -> node_at t p = Some Dir.
Proof.
  revert parents exist_ok p s t.
  induction depth as [|depth IH]; intros parents exist_ok p s t; cbn.
  - destruct (os_mkdir_spec p s) as [[e ->]|[-> Hn]].
    + unfold is_dir.
      destruct e, parents, exist_ok; cbn; try discriminate;
        destruct (node_at s p) as [[|]|] eqn:E; try discriminate;
        intros [= <-]; done.
    + intros [= <-]. apply node_at_insert_eq. by destruct p.
  - destruct (os_mkdir_spec p s) as [[e ->]|[-> Hn]].
    + assert (Hx : (if exist_ok && is_dir s p then (Done tt, s) else (@Raised unit e, s)) = (Done tt, t)
                   -> node_at t p = Some Dir).
      { unfold is_dir. destruct exist_ok; cbn; try discriminate.
        destruct (node_at s p) as [[|]|] eqn:E; try discriminate.
        intros [= <-]; done. }
      destruct e; try exact Hx.
      destruct parents; [|discriminate].
      unfold bind.
      destruct (path_mkdir depth true true (parent p) s) as [[[]| |] s1]; try discriminate.
      apply IH.
    + intros [= <-]. apply node_at_insert_eq. by destruct p.
Qed.

Lemma path_mkdir_exists depth parents p s :
  node_at s p = Some Dir -> path_mkdir depth parents true p s = (Done tt, s).
Proof.
  intros Hd.
  assert (Ho : os_mkdir p s = (Raised FileExistsError, s)).
  { unfold os_mkdir. by rewrite Hd. }
  destruct depth; cbn; rewrite Ho; unfold is_dir; by rewrite Hd.
Qed.

Lemma made_grows p s t : made p s t -> grows s t.
Proof.
  intros Hm q [n Hn]. destruct (Hm q) as [->|[E _]]; [done | congruence].
Qed.

(** What [write_text] does. *)
Lemma write_text_spec p content s :
  (exists e, write_text p content s = (Raised e, s)) \/
  (write_text p content s = (Done tt, <[p := File content]> s) /\
   node_at s (parent p) = Some Dir /\ node_at s p <> Some Dir).
Proof.
  unfold write_text.
  destruct (node_at s (parent p)) as [[|]|]; eauto.
  destruct (node_at s p) as [[|]|]; eauto.
Qed.

Lemma write_text_done p content s t :
  write_text p content s = (Done tt, t) ->
  t = <[p := File content]> s /\ node_at s (parent p) = Some Dir /\
  node_at s p <> Some Dir.
Proof.
  destruct (write_text_spec p content s) as [[e ->]|(-> & H1 & H2)]; [discriminate|].
  intros [= <-]. done.
Qed.

Lemma insert_file_grows (p : path) (content : string) (s : fs) :
  node_at s p <> Some Dir -> grows s (<[p := File content]> s).
Proof.
  intros Hnd q Hq. destruct (decide (p = q)) as [<-|Hne].
  - rewrite lookup_insert_eq. destruct p as [|c p]; [by destruct Hnd|].
    cbn in Hnd. destruct Hq as [[|c'] Hq]; rewrite Hq in *; done.
  - by rewrite lookup_insert_ne.
Qed.

Lemma write_text_grows p content s :
  grows s (write_text p content s).2.
Proof.
  destruct (write_text_spec p content s) as [[e ->]|(-> & H1 & H2)]; cbn.
  - apply grows_refl.
  - by apply insert_file_grows.
Qed.

Lemma copy_spec src dst s :
  (exists e, copy src dst s = (Raised e, s)) \/
  (exists content,
     node_at s src = Some (File content) /\
     copy src dst s = (Done tt, <[copy_target s src dst := File content]> s) /\
     node_at s (parent (copy_target s src dst)) = Some Dir /\
     node_at s (copy_target s src dst) <> Some Dir /\
     src <> copy_target s src dst).
Proof.
  unfold copy. fold (copy_target s src dst).
  destruct (decide (src = copy_target s src dst)) as [E|Hne]; [eauto|].
  unfold bind, read_text.
  destruct (node_at s src) as [[|content]|] eqn:Hs; eauto.
  destruct (write_text_spec (copy_target s src dst) content s)
    as [[e ->]|(-> & H1 & H2)]; eauto 10.
Qed.

Lemma copy_grows src dst s : grows s (copy src dst s).2.
Proof.
  destruct (copy_spec src dst s) as [[e ->]|(c & _ & -> & _ & H & _)]; cbn.
  - apply grows_refl.
  - by apply insert_file_grows.
Qed.

Lemma mkdir_grows parents exist_ok p s : grows s (mkdir parents exist_ok p s).2.
Proof. eapply made_grows, path_mkdir_made. Qed.

End FSFacts.
Import FSFacts.

(** ** Facts about one turn of the loop *)

Module GeneratorFacts.

(** Case analysis on the outcome of the first computation of a [bind]. *)
Ltac bind_cases H :=
  match type of H with
  | bind ?m _ ?s = _ =>
      let E := fresh "E" in
      unfold bind at 1 in H;
      destruct (m s) as [[?| |] ?] eqn:E; try discriminate H
  end.

Lemma sweep_step_done h a out y dirs s D t :
  sweep_step h a out y dirs s = (Done D, t) ->
  exists modified s1 s2,
    modified_atoms y a = Ok modified /\
    mkdir true true (increment_dir out y) s = (Done tt, s1) /\
    write_text (increment_file out y) (xyz_text h modified) s1 = (Done tt, s2) /\
    copy (increment_file out y) (struc_file out y) s2 = (Done tt, t) /\
    D = dirs ++ [increment_dir out y].
Proof.
  unfold sweep_step. intros H.
  destruct (modified_atoms y a) as [modified|e] eqn:Hm; [|discriminate].
  cbn [lift] in H. unfold bind at 1 in H. cbn [ret] in H.
  bind_cases H. bind_cases H. bind_cases H.
  injection H as <- <-.
  repeat match goal with u : unit |- _ => destruct u end.
  eauto 10.
Qed.

Lemma sweep_step_grows h a out y dirs s :
  grows s (sweep_step h a out y dirs s).2.
Proof.
  unfold sweep_step.
  destruct (modified_atoms y a) as [modified|e]; cbn [lift];
    [|apply grows_refl].
  unfold bind at 1. cbn [ret].
  assert (G1 := mkdir_grows true true (increment_dir out y) s).
  unfold bind at 1.
  destruct (mkdir true true (increment_dir out y) s) as [[[]| |] s1];
    cbn in G1; try exact G1.
  assert (G2 := write_text_grows (increment_file out y) (xyz_text h modified) s1).
  unfold bind at 1.
  destruct (write_text _ _ s1) as [[[]| |] s2]; cbn in G2;
    try (eapply grows_trans; eassumption).
  assert (G3 := copy_grows (increment_file out y) (struc_file out y) s2).
  unfold bind at 1.
  destruct (copy _ _ s2) as [[[]| |] s3]; cbn in G3;
    eapply grows_trans; try eassumption; eapply grows_trans; eassumption.
Qed.

Lemma sweep_grows fuel h a out stop step y dirs s :
  grows s (sweep fuel h a out stop step y dirs s).2.
Proof.
  revert y dirs s. induction fuel as [|fuel IH]; intros y dirs s; cbn.
  - destruct (PrimFloat.leb y stop); apply grows_refl.
  - destruct (PrimFloat.leb y stop); [|apply grows_refl].
    unfold bind.
    assert (G := sweep_step_grows h a out y dirs s).
    destruct (sweep_step h a out y dirs s) as [[D| |] s1]; cbn in G; try exact G.
    eapply grows_trans; [exact G | apply IH].
Qed.

End GeneratorFacts.
Import GeneratorFacts.

(** ** The characters of a directory name *)

Module NameFacts.

Lemma all_chars_app P a b :
  all_chars P (a +:+ b) = all_chars P a && all_chars P b.
Proof.
  induction a as [|c a IH]; simpl; [done|]. rewrite IH. by rewrite andb_assoc.
Qed.

Lemma all_chars_replicate P n c :
  P c = true -> all_chars P (replicate_char n c) = true.
Proof. intros Hc. induction n as [|n IH]; cbn; [done|]. by rewrite Hc, IH. Qed.

Lemma all_chars_substring P s : forall n m,
  all_chars P s = true -> all_chars P (substring n m s) = true.
Proof.
  induction s as [|c s IH]; intros n m H; cbn in *.
  - by destruct n, m.
  - apply andb_prop in H as [Hc Hs].
    destruct n as [|n]; [destruct m as [|m]|]; cbn; auto.
    rewrite Hc. cbn. auto.
Qed.

Lemma all_chars_impl (P Q : ascii -> bool) s :
  (forall c, P c = true -> Q c = true) ->
  all_chars P s = true -> all_chars Q s = true.
Proof.
  intros HPQ. induction s as [|c s IH]; cbn; [done|].
  intros [Hc Hs]%andb_prop. by rewrite (HPQ _ Hc), IH.
Qed.

Lemma digits_of_uint u : all_chars is_digit (NilEmpty.string_of_uint u) = true.
Proof. induction u; cbn; auto. Qed.

Lemma decimal_digits n : all_chars is_digit (decimal n) = true.
Proof.
  unfold decimal, NilZero.string_of_uint.
  destruct (N.to_uint n); try apply digits_of_uint. reflexivity.
Qed.

Lemma is_digit_float_char c : is_digit c = true -> float_char c = true.
Proof. unfold float_char. by intros ->. Qed.

Lemma point_chars p digits :
  all_chars is_digit digits = true -> all_chars float_char (point p digits) = true.
Proof.
  intros Hd. unfold point.
  set (s := replicate_char (S p - String.length digits) "0" +:+ digits).
  assert (Hs : all_chars float_char s = true).
  { unfold s. rewrite all_chars_app, all_chars_replicate by reflexivity.
    cbn. by apply (all_chars_impl is_digit), Hd; apply is_digit_float_char. }
  destruct p as [|p]; [exact Hs|].
  rewrite !all_chars_app, !all_chars_substring by exact Hs. reflexivity.
Qed.

Lemma format_f_chars p x : all_chars float_char (format_f p x) = true.
Proof.
  unfold format_f.
  destruct (Prim2SF x) as [s|s| |s m e].
  - rewrite all_chars_app, point_chars by reflexivity. by destruct s.
  - by destruct s.
  - reflexivity.
  - rewrite all_chars_app, point_chars by apply decimal_digits. by destruct s.
Qed.

Lemma dir_name_chars y : all_chars name_char (dir_name y) = true.
Proof.
  unfold dir_name. rewrite all_chars_app. cbn. rewrite andb_true_r.
  eapply all_chars_impl, format_f_chars.
  unfold name_char. by intros c ->.
Qed.

Lemma last_char_app s c : last_char (s +:+ String c EmptyString) = Some c.
Proof.
  induction s as [|d s IH]; simpl; [done|].
  destruct (s +:+ String c EmptyString) eqn:E; [by destruct s | exact IH].
Qed.

Lemma dir_name_not_manifest y : dir_name y <> ".list.dirs".
Proof.
  intros H. apply (f_equal last_char) in H.
  unfold dir_name in H. rewrite last_char_app in H. discriminate.
Qed.

Lemma dir_name_nonempty y : dir_name y <> EmptyString.
Proof.
  intros H. apply (f_equal last_char) in H.
  unfold dir_name in H. rewrite last_char_app in H. discriminate.
Qed.

Lemma all_chars_forall P s c :
  all_chars P s = true -> In c (list_ascii_of_string s) -> P c = true.
Proof.
  induction s as [|d s IH]; cbn; [done|].
  intros [Hd Hs]%andb_prop [<-|Hin]; auto.
Qed.

(** No ["/"] and no line break in a directory name. *)
Lemma dir_name_plain y c :
  In c (list_ascii_of_string (dir_name y)) -> c <> "/"%char /\ c <> LF.
Proof.
  intros Hin. apply (all_chars_forall _ _ _ (dir_name_chars y)) in Hin.
  split; intros ->; discriminate.
Qed.

End NameFacts.
Import NameFacts.

(** ** What a sweep touches and leaves *)

Module SweepFacts.

Lemma prefix_child (q p : path) (c : string) :
  q `prefix_of` child p c -> q `prefix_of` p \/ q = child p c.
Proof.
  unfold child. intros [k Hk].
  destruct k as [|x k _] using rev_ind.
  - right. by rewrite app_nil_r in Hk.
  - left. rewrite app_assoc in Hk. apply app_inj_tail in Hk as [-> _].
    by exists k.
Qed.

Lemma prefix_child_child (p : path) (c d : string) :
  child p c `prefix_of` child (child p c) d.
Proof. by exists [d]. Qed.

Lemma sweep_step_frame h a out y dirs s q :
  (sweep_step h a out y dirs s).2 !! q = s !! q \/ in_reach out y q.
Proof.
  unfold sweep_step.
  destruct (modified_atoms y a) as [modified|e]; cbn [lift]; [|by left].
  unfold bind at 1. cbn [ret].
  assert (F1 := path_mkdir_made (length (increment_dir out y)) true true
                  (increment_dir out y) s q).
  fold (mkdir true true (increment_dir out y)) in F1.
  assert (R1 : (mkdir true true (increment_dir out y) s).2 !! q = s !! q
               \/ in_reach out y q).
  { destruct F1 as [F1|(_ & _ & F1)]; [by left | right].
    apply prefix_child in F1 as [F1| ->]; [by left | by right]. }
  clear F1. unfold bind at 1.
  destruct (mkdir true true (increment_dir out y) s) as [[[]| |] s1];
    cbn in R1; try exact R1.
  destruct R1 as [R1|R1]; [|by right]. rewrite <- R1. clear R1.
  unfold bind at 1.
  destruct (write_text_spec (increment_file out y) (xyz_text h modified) s1)
    as [[e ->]|(-> & _ & _)]; [by left|].
  destruct (decide (increment_file out y = q)) as [<-|Hne1].
  { right. right. apply prefix_child_child. }
  rewrite <- (lookup_insert_ne s1 (increment_file out y) q
                (File (xyz_text h modified))) by done.
  set (s2 := <[increment_file out y := File (xyz_text h modified)]> s1).
  unfold bind at 1.
  destruct (copy_spec (increment_file out y) (struc_file out y) s2)
    as [[e ->]|(c & _ & -> & _ & _ & _)]; [by left|].
  cbn.
  destruct (decide (copy_target s2 (increment_file out y) (struc_file out y) = q))
    as [<-|Hne2]; [|left; by rewrite lookup_insert_ne].
  right. right. unfold copy_target.
  destruct (is_dir s2 (struc_file out y)).
  - etrans; [apply prefix_child_child | by eexists].
  - apply prefix_child_child.
Qed.

Lemma manifest_not_in_reach out y : ~ in_reach out y (manifest out).
Proof.
  unfold in_reach, manifest, increment_dir, child. intros [H|[k H]].
  - by apply prefix_snoc_not in H.
  - rewrite <- app_assoc in H. apply app_inv_head in H.
    injection H as H _. by apply (dir_name_not_manifest y).
Qed.

Lemma sweep_step_manifest h a out y dirs s :
  (sweep_step h a out y dirs s).2 !! manifest out = s !! manifest out.
Proof.
  destruct (sweep_step_frame h a out y dirs s (manifest out)) as [H|H];
    [done | by apply manifest_not_in_reach in H].
Qed.

Lemma sweep_manifest fuel h a out stop step y dirs s :
  (sweep fuel h a out stop step y dirs s).2 !! manifest out = s !! manifest out.
Proof.
  revert y dirs s. induction fuel as [|fuel IH]; intros y dirs s; cbn.
  - by destruct (PrimFloat.leb y stop).
  - destruct (PrimFloat.leb y stop); [|done].
    unfold bind.
    assert (G := sweep_step_manifest h a out y dirs s).
    destruct (sweep_step h a out y dirs s) as [[D| |] s1]; cbn in G; try exact G.
    rewrite <- G. apply IH.
Qed.

(** A step that completes leaves its directory behind. *)
Lemma sweep_step_is_dir h a out y dirs s D t :
  sweep_step h a out y dirs s = (Done D, t) ->
  is_dir t (increment_dir out y) = true.
Proof.
  intros H. assert (G := sweep_step_grows h a out y dirs s).
  apply sweep_step_done in H as (modified & s1 & s2 & _ & Hm & Hw & Hc & _).
  apply path_mkdir_done in Hm.
  assert (G2 := write_text_grows (increment_file out y) (xyz_text h modified) s1).
  assert (G3 := copy_grows (increment_file out y) (struc_file out y) s2).
  rewrite Hw in G2. rewrite Hc in G3. cbn in G2, G3.
  eapply is_dir_grows; [exact G3|].
  eapply is_dir_grows; [exact G2|].
  unfold is_dir. by rewrite Hm.
Qed.

(** A sweep that completes has made one turn per value of
    [sweep_values], in that order, and every directory it recorded is
    still there at the end. *)
Lemma sweep_done_values fuel h a out stop step : forall y dirs s D t,
  sweep fuel h a out stop step y dirs s = (Done D, t) ->
  exists vs,
    sweep_values fuel stop step y = Some vs /\
    D = dirs ++ map (increment_dir out) vs /\
    Forall (fun v => is_dir t (increment_dir out v) = true) vs.
Proof.
  induction fuel as [|fuel IH]; intros y dirs s D t; cbn.
  - destruct (PrimFloat.leb y stop); [discriminate|].
    intros [= <- <-]. exists []. by rewrite app_nil_r.
  - destruct (PrimFloat.leb y stop).
    2:{ intros [= <- <-]. exists []. by rewrite app_nil_r. }
    intros H. unfold bind at 1 in H.
    destruct (sweep_step h a out y dirs s) as [[D1| |] s1] eqn:E;
      try discriminate H.
    assert (Hd := sweep_step_is_dir _ _ _ _ _ _ _ _ E).
    assert (G := sweep_grows fuel h a out stop step (PrimFloat.add y step) D1 s1).
    rewrite H in G. cbn in G.
    apply sweep_step_done in E as (_ & _ & _ & _ & _ & _ & _ & ->).
    apply IH in H as (vs & -> & -> & Hall).
    exists (y :: vs). cbn. rewrite <- app_assoc. split_and!; [done..|].
    constructor; [|done]. by eapply is_dir_grows.
Qed.

(** Turns that complete are turns of [sweep]. *)
Lemma iterates_sweep h a out stop step k st st' :
  iterates h a out stop step k st st' ->
  forall fuel,
    sweep (k + fuel) h a out stop step (current_y st) (all_directories st)
      (files st) =
    sweep fuel h a out stop step (current_y st') (all_directories st')
      (files st').
Proof.
  induction 1 as [st|k st dirs t st' Hle Hstep _ IH]; intros fuel; [done|].
  cbn. rewrite Hle. unfold bind. rewrite Hstep. apply IH.
Qed.

Lemma iterates_facts h a out stop step k st st' :
  iterates h a out stop step k st st' ->
  grows (files st) (files st') /\
  files st' !! manifest out = files st !! manifest out /\
  exists new,
    all_directories st' = all_directories st ++ new /\ length new = k /\
    Forall (fun d => is_dir (files st') d = true) new.
Proof.
  induction 1 as [st|k st dirs t st' Hle Hstep _ IH].
  - split; [apply grows_refl|]. split; [done|].
    exists []. by rewrite app_nil_r.
  - destruct IH as (G & Hm & new & Hd & Hl & Hall). cbn in *.
    assert (G1 := sweep_step_grows h a out (current_y st) (all_directories st) (files st)).
    assert (M1 := sweep_step_manifest h a out (current_y st) (all_directories st) (files st)).
    assert (D1 := sweep_step_is_dir _ _ _ _ _ _ _ _ Hstep).
    rewrite Hstep in G1, M1. cbn in G1, M1.
    apply sweep_step_done in Hstep as (_ & _ & _ & _ & _ & _ & _ & ->).
    split; [by eapply grows_trans|]. split; [congruence|].
    exists (increment_dir out (current_y st) :: new).
    rewrite Hd, <- app_assoc. split_and!; [done | cbn; by rewrite Hl |].
    constructor; [|done]. by eapply is_dir_grows.
Qed.

End SweepFacts.
Import SweepFacts.

(** ** Running the generator a second time *)

Module Rerun.

Lemma kind_dir (o : option node) : kind o = Some true -> o = Some Dir.
Proof. by destruct o as [[|]|]. Qed.

Lemma grows_dir s t p : grows s t -> node_at s p = Some Dir -> node_at t p = Some Dir.
Proof.
  intros G. destruct p as [|c p]; [done|]. cbn. intros H.
  apply kind_dir. rewrite (G (c :: p)); [by rewrite H | by rewrite H].
Qed.

Lemma grows_not_dir s t p :
  grows s t -> is_Some (s !! p) -> node_at s p <> Some Dir -> node_at t p <> Some Dir.
Proof.
  intros G Hs. destruct p as [|c p]; [done|]. cbn. intros H1 H2.
  specialize (G _ Hs). rewrite H2 in G. destruct Hs as [[|c'] Hs]; rewrite Hs in *; done.
Qed.

Lemma follows_dir final s s' p :
  grows s final -> follows final s s' ->
  node_at final p = Some Dir -> node_at s' p = Some Dir.
Proof.
  intros G Hf. destruct p as [|c p]; [done|]. cbn. intros HF.
  destruct (Hf (c :: p)) as [->|[-> Hs]]; [done|].
  apply kind_dir. rewrite <- (G _ Hs). by rewrite HF.
Qed.

Lemma follows_not_dir final s s' p :
  grows s final -> follows final s s' -> p <> [] ->
  node_at final p <> Some Dir -> node_at s' p <> Some Dir.
Proof.
  intros G Hf. destruct p as [|c p]; [done|]. cbn. intros _ HF.
  destruct (Hf (c :: p)) as [->|[-> Hs]]; [done|].
  intros Hd. apply HF. apply kind_dir. rewrite (G _ Hs). by rewrite Hd.
Qed.

Lemma follows_mkdir final p s s' t :
  mkdir true true p s = (Done tt, t) ->
  grows t final -> follows final s s' ->
  mkdir true true p s' = (Done tt, s') /\ follows final t s'.
Proof.
  intros Hm G Hf.
  assert (Hmade := path_mkdir_made (length p) true true p s).
  fold (mkdir true true p) in Hmade. rewrite Hm in Hmade. cbn in Hmade.
  assert (Gs : grows s final).
  { eapply grows_trans; [|exact G]. by eapply made_grows. }
  split.
  - apply path_mkdir_exists. eapply follows_dir; [exact Gs | exact Hf |].
    eapply grows_dir; [exact G|]. by eapply path_mkdir_done.
  - intros q. destruct (Hmade q) as [E|(E & _ & _)].
    + rewrite E. apply Hf.
    + destruct (Hf q) as [?|[_ Hs]]; [by left|].
      rewrite E in Hs. by destruct Hs.
Qed.

Lemma follows_write final p content s s' t :
  p <> [] ->
  write_text p content s = (Done tt, t) ->
  grows t final -> follows final s s' ->
  write_text p content s' = (Done tt, <[p := File content]> s') /\
  follows final t (<[p := File content]> s').
Proof.
  intros Hp Hw G Hf.
  apply write_text_done in Hw as (-> & Hpar & Hnd).
  assert (Gs : grows s final).
  { eapply grows_trans; [|exact G]. by apply insert_file_grows. }
  split.
  - unfold write_text.
    rewrite (follows_dir final s s' (parent p) Gs Hf)
      by (eapply grows_dir; [exact Gs | exact Hpar]).
    assert (Hn : node_at s' p <> Some Dir).
    { eapply follows_not_dir; [exact Gs | exact Hf | exact Hp |].
      eapply grows_not_dir; [exact G | | ].
      - rewrite lookup_insert_eq. eauto.
      - by rewrite node_at_insert_eq. }
    by destruct (node_at s' p) as [[|]|].
  - intros q. destruct (decide (p = q)) as [<-|Hne].
    + right. rewrite !lookup_insert_eq. eauto.
    + rewrite !lookup_insert_ne by done. apply Hf.
Qed.

Lemma follows_copy final src dst s s' t :
  src <> [] -> dst <> [] -> s' !! src = s !! src ->
  copy src dst s = (Done tt, t) ->
  grows t final -> follows final s s' ->
  exists t', copy src dst s' = (Done tt, t') /\ follows final t t'.
Proof.
  intros Hsrc Hdst Hsame Hc G Hf.
  destruct (copy_spec src dst s) as [[e He]|(c & Hr & Hc' & Hpar & Hnd & Hne)];
    [congruence|].
  rewrite Hc' in Hc. injection Hc as <-.
  assert (Gs : grows s final).
  { eapply grows_trans; [|exact G]. by apply insert_file_grows. }
  assert (Ht : copy_target s' src dst = copy_target s src dst).
  { unfold copy_target in *. unfold is_dir in *.
    destruct (node_at s dst) as [[|c0]|] eqn:Hd.
    - by rewrite (follows_dir final s s' dst Gs Hf)
        by (eapply grows_dir; [exact Gs | exact Hd]).
    - assert (Hn : node_at s' dst <> Some Dir).
      { eapply follows_not_dir; [exact Gs | exact Hf | exact Hdst |].
        eapply grows_not_dir; [exact G | | ].
        - rewrite lookup_insert_eq. eauto.
        - by rewrite node_at_insert_eq. }
      by destruct (node_at s' dst) as [[|]|].
    - assert (Hn : node_at s' dst <> Some Dir).
      { eapply follows_not_dir; [exact Gs | exact Hf | exact Hdst |].
        eapply grows_not_dir; [exact G | | ].
        - rewrite lookup_insert_eq. eauto.
        - by rewrite node_at_insert_eq. }
      by destruct (node_at s' dst) as [[|]|]. }
  set (tgt := copy_target s src dst) in *.
  assert (Htgt : tgt <> []).
  { unfold tgt, copy_target, child. destruct (is_dir s dst); [|done].
    by destruct dst. }
  assert (Hw : write_text tgt c s = (Done tt, <[tgt := File c]> s)).
  { unfold write_text. rewrite Hpar. by destruct (node_at s tgt) as [[|]|]. }
  destruct (follows_write final tgt c s s' _ Htgt Hw G Hf) as [Hw' Hf'].
  exists (<[tgt := File c]> s'). split; [|done].
  unfold copy. fold (copy_target s' src dst). rewrite Ht. fold tgt.
  destruct (decide (src = tgt)); [done|].
  unfold bind, read_text.
  assert (Hr' : node_at s' src = Some (File c)).
  { destruct src; [done|]. cbn in *. by rewrite Hsame. }
  by rewrite Hr'.
Qed.

Lemma child_nonempty (p : path) (c : string) : child p c <> [].
Proof. unfold child. by destruct p. Qed.

Lemma follows_step final h a out y dirs s s' D t :
  sweep_step h a out y dirs s = (Done D, t) ->
  grows t final -> follows final s s' ->
  exists t', sweep_step h a out y dirs s' = (Done D, t') /\ follows final t t'.
Proof.
  intros H G Hf.
  apply sweep_step_done in H as (modified & s1 & s2 & Hm & Hmk & Hw & Hc & ->).
  assert (G2 : grows s2 final).
  { eapply grows_trans; [|exact G].
    assert (X := copy_grows (increment_file out y) (struc_file out y) s2).
    by rewrite Hc in X. }
  assert (G1 : grows s1 final).
  { eapply grows_trans; [|exact G2].
    assert (X := write_text_grows (increment_file out y) (xyz_text h modified) s1).
    by rewrite Hw in X. }
  destruct (follows_mkdir final _ s s' s1 Hmk G1 Hf) as [Hmk' Hf1].
  destruct (follows_write final (increment_file out y) (xyz_text h modified)
              s1 s' s2 (child_nonempty _ _) Hw G2 Hf1) as [Hw' Hf2].
  apply write_text_done in Hw as (Es2 & _ & _).
  destruct (follows_copy final (increment_file out y) (struc_file out y) s2
              (<[increment_file out y := File (xyz_text h modified)]> s') t)
    as (t' & Hc' & Hf3); try done; try apply child_nonempty.
  { rewrite Es2. by rewrite !lookup_insert_eq. }
  exists t'. split; [|done].
  unfold sweep_step. rewrite Hm. cbn [lift]. unfold bind at 1. cbn [ret].
  unfold bind at 1. rewrite Hmk'. unfold bind at 1. rewrite Hw'.
  unfold bind at 1. by rewrite Hc'.
Qed.

Lemma follows_sweep final fuel h a out stop step : forall y dirs s s' D t,
  sweep fuel h a out stop step y dirs s = (Done D, t) ->
  grows t final -> follows final s s' ->
  exists t', sweep fuel h a out stop step y dirs s' = (Done D, t') /\
             follows final t t'.
Proof.
  induction fuel as [|fuel IH]; intros y dirs s s' D t; cbn.
  - destruct (PrimFloat.leb y stop); [discriminate|].
    intros [= <- <-] _ Hf. eauto.
  - destruct (PrimFloat.leb y stop); [|intros [= <- <-] _ Hf; eauto].
    intros H G Hf. unfold bind at 1 in H.
    destruct (sweep_step h a out y dirs s) as [[D1| |] s1] eqn:E;
      try discriminate H.
    assert (G1 : grows s1 final).
    { eapply grows_trans; [|exact G].
      assert (X := sweep_grows fuel h a out stop step (PrimFloat.add y step) D1 s1).
      by rewrite H in X. }
    destruct (follows_step final _ _ _ _ _ _ s' _ _ E G1 Hf) as (t1 & E' & Hf1).
    unfold bind. rewrite E'. eapply IH; eauto.
Qed.

End Rerun.
Import Rerun.

(** ** Comparisons of floats *)

Module FloatFacts.

Lemma compare_cont_swap (p q : positive) :
  Pos.compare_cont Eq q p = CompOpp (Pos.compare_cont Eq p q).
Proof. symmetry. apply (Pos.compare_cont_antisym p q Eq). Qed.

Lemma SFcompare_lt_gt x y :
  SFcompare x y = Some Lt -> SFcompare y x = Some Gt.
Proof.
  destruct x as [sx|sx| |sx mx ex], y as [sy|sy| |sy my ey];
    try (cbn; discriminate);
    try (destruct sx; cbn; (discriminate || reflexivity));
    try (destruct sy; cbn; (discriminate || reflexivity));
    try (destruct sx, sy; cbn; (discriminate || reflexivity)).
  unfold SFcompare.
  rewrite (Z.compare_antisym ex ey), (compare_cont_swap mx my).
  destruct sx, sy, (ex ?= ey)%Z, (Pos.compare_cont Eq mx my); cbn;
    (discriminate || reflexivity).
Qed.

(** [stop < start] rules out [start <= stop]. *)
Lemma ltb_not_leb (x y : float) :
  PrimFloat.ltb y x = true -> PrimFloat.leb x y = false.
Proof.
  rewrite ltb_spec, leb_spec. unfold SFltb, SFleb.
  destruct (SFcompare (Prim2SF y) (Prim2SF x)) as [[| |]|] eqn:E; try discriminate.
  intros _. by rewrite (SFcompare_lt_gt _ _ E).
Qed.

Lemma SFeqb_zero x : SFeqb x (S754_zero false) = true -> exists s, x = S754_zero s.
Proof.
  unfold SFeqb. destruct x as [s|s| |s m e]; cbn; try discriminate; eauto.
  - by destruct s.
  - by destruct s.
Qed.

Lemma SFcompare_zero_sign s s' y :
  SFcompare (S754_zero s) y = SFcompare (S754_zero s') y.
Proof. by destruct y. Qed.

(** Adding a zero step leaves the loop condition as it is. *)
Lemma leb_add_zero (y step stop : float) :
  PrimFloat.eqb step 0 = true ->
  PrimFloat.leb y stop = true ->
  PrimFloat.leb (PrimFloat.add y step) stop = true.
Proof.
  rewrite FloatAxioms.eqb_spec, !leb_spec, add_spec.
  change (Prim2SF 0) with (S754_zero false).
  intros [s ->]%SFeqb_zero. unfold SFleb, SF64add.
  destruct (Prim2SF y) as [sy|sy| |sy my ey]; cbn; try done.
  destruct sy, s; cbn; try done.
Qed.

End FloatFacts.
Import FloatFacts.

(** ** Reading a formatted float back *)

Module ParseFacts.

Lemma digitpart_tail_digits ds r :
  all_chars is_digit ds = true -> stops r ->
  digitpart_tail (ds +:+ r) = (ds, r).
Proof.
  intros Hd Hr. induction ds as [|c ds IH]; simpl.
  - destruct r as [|c r]; [done|]. destruct Hr as [Hc Hu]. simpl.
    rewrite Hc. destruct (Ascii.eqb_spec c "_"); [done|]. done.
  - simpl in Hd. apply andb_prop in Hd as [Hc Hds].
    rewrite Hc, (IH Hds). done.
Qed.

Lemma digitpart_digits c ds r :
  all_chars is_digit (String c ds) = true -> stops r ->
  digitpart (String c ds +:+ r) = (String c ds, r).
Proof.
  simpl. intros [Hc Hds]%andb_prop Hr.
  by rewrite Hc, digitpart_tail_digits.
Qed.

Lemma digit_cases c :
  is_digit c = true ->
  lower c = c /\ c <> "-"%char /\ c <> "+"%char /\ c <> "i"%char /\ c <> "n"%char.
Proof.
  destruct c as [[] [] [] [] [] [] [] []]; try discriminate; intros _;
    repeat split; discriminate.
Qed.

Lemma length_app (a b : string) :
  String.length (a +:+ b) = (String.length a + String.length b)%nat.
Proof. induction a as [|c a IH]; simpl; [done|]. by rewrite IH. Qed.

Lemma length_replicate n c : String.length (replicate_char n c) = n.
Proof. induction n as [|n IH]; simpl; [done|]. by rewrite IH. Qed.

Lemma substring_nonempty s k :
  (0 < k)%nat -> s <> EmptyString -> substring 0 k s <> EmptyString.
Proof. destruct s, k; simpl; try done; lia. Qed.

Lemma point_fixed p digits :
  all_chars is_digit digits = true -> fixed_number (point p digits).
Proof.
  intros Hd. unfold point.
  set (s := replicate_char (S p - String.length digits) "0" +:+ digits).
  assert (Hs : all_chars is_digit s = true).
  { unfold s. by rewrite all_chars_app, all_chars_replicate, Hd. }
  assert (Hl : (S p <= String.length s)%nat).
  { unfold s. rewrite length_app, length_replicate. lia. }
  destruct p as [|p].
  - destruct s as [|c s]; [simpl in Hl; lia|]. by constructor.
  - assert (Hi := substring_nonempty s (String.length s - S p)
                    ltac:(lia) ltac:(destruct s; [simpl in Hl; lia | done])).
    destruct (substring 0 (String.length s - S p) s) as [|c i] eqn:E; [done|].
    apply fixed_frac.
    + rewrite <- E. by apply all_chars_substring.
    + by apply all_chars_substring.
Qed.

Lemma append_empty (s : string) : s +:+ EmptyString = s.
Proof.
  induction s as [|c s IH]; [done|].
  change (String c (s +:+ EmptyString) = String c s). by rewrite IH.
Qed.

Lemma floatnumber_fixed neg s :
  fixed_number s -> is_Some (floatnumber neg s).
Proof.
  intros [c ds Hd | c ds fs Hd Hf]; unfold floatnumber.
  - rewrite <- (append_empty (String c ds)) at 1.
    rewrite (digitpart_digits c ds EmptyString Hd I). cbv beta iota.
    change (String c ds +:+ EmptyString) with (String c (ds +:+ EmptyString)).
    cbv beta iota. cbn [exponent]. eauto.
  - rewrite (digitpart_digits c ds ("." +:+ fs) Hd) by (split; done).
    change ("." +:+ fs) with (String "."%char fs). cbv beta iota.
    rewrite Ascii.eqb_refl.
    assert (Hfp : digitpart fs = (fs, EmptyString)).
    { destruct fs as [|f fs]; [done|].
      rewrite <- (append_empty (String f fs)) at 1.
      by apply digitpart_digits. }
    rewrite Hfp.
    change (String c ds +:+ fs) with (String c (ds +:+ fs)).
    cbv beta iota. cbn [exponent]. eauto.
Qed.

Lemma fixed_number_head s :
  fixed_number s -> exists c r, s = String c r /\ is_digit c = true.
Proof.
  intros [c ds Hd | c ds fs Hd Hf]; simpl in Hd;
    apply andb_prop in Hd as [Hc _]; simpl; eauto.
Qed.

Lemma float_of_string_fixed (neg : bool) s :
  fixed_number s ->
  is_Some (float_of_string ((if neg then "-" else EmptyString) +:+ s)).
Proof.
  intros Hs. destruct (fixed_number_head s Hs) as (c & r & -> & Hc).
  destruct (digit_cases c Hc) as (Hl & Hm & Hp & Hi & Hn).
  assert (Hbody : forall b : bool, sign ((if b then "-" else EmptyString) +:+ String c r)
                            = (b, String c r)).
  { intros [|]; simpl; [done|].
    destruct (Ascii.eqb_spec c "-"); [done|].
    destruct (Ascii.eqb_spec c "+"); done. }
  unfold float_of_string. rewrite Hbody. simpl lowercase. rewrite Hl.
  simpl String.eqb.
  destruct (Ascii.eqb_spec c "i"); [done|].
  destruct (Ascii.eqb_spec c "n"); [done|].
  simpl. by apply floatnumber_fixed.
Qed.

(** A formatted float can be read back: [float(f"{x:.pf}")] does not raise. *)
Lemma format_f_parses p x : is_Some (float_of_string (format_f p x)).
Proof.
  unfold format_f. destruct (Prim2SF x) as [s|s| |s m e].
  - apply float_of_string_fixed, point_fixed. reflexivity.
  - destruct s; cbn; eauto.
  - cbn; eauto.
  - apply float_of_string_fixed, point_fixed, decimal_digits.
Qed.

End ParseFacts.
Import ParseFacts.

(** ** Atom lines *)

Module AtomFacts.

Lemma index_ok parts i tok : index parts i = Ok tok <-> parts !! i = Some tok.
Proof. unfold index. destruct (parts !! i); split; congruence. Qed.

Lemma float_ok tok x : float_ tok = Ok x <-> float_of_string tok = Some x.
Proof. unfold float_. destruct (float_of_string tok); split; congruence. Qed.

Lemma formatted_atom_ok parts line :
  formatted_atom parts = Ok line ->
  exists sym tx ty tz x y z,
    parts !! 0%nat = Some sym /\
    parts !! 1%nat = Some tx /\ float_of_string tx = Some x /\
    parts !! 2%nat = Some ty /\ float_of_string ty = Some y /\
    parts !! 3%nat = Some tz /\ float_of_string tz = Some z /\
    line = canonical sym x y z.
Proof.
  unfold formatted_atom, rbind.
  destruct (index parts 0) as [sym|] eqn:E0; [|discriminate].
  destruct (index parts 1) as [tx|] eqn:E1; [|discriminate].
  destruct (float_ tx) as [x|] eqn:F1; [|discriminate].
  destruct (index parts 2) as [ty|] eqn:E2; [|discriminate].
  destruct (float_ ty) as [y|] eqn:F2; [|discriminate].
  destruct (index parts 3) as [tz|] eqn:E3; [|discriminate].
  destruct (float_ tz) as [z|] eqn:F3; [|discriminate].
  intros [= <-].
  apply index_ok in E0, E1, E2, E3. apply float_ok in F1, F2, F3.
  exists sym, tx, ty, tz, x, y, z. done.
Qed.

Lemma selected_true parts tok y0 :
  parts !! 0%nat = Some "O" -> parts !! 2%nat = Some tok ->
  float_of_string tok = Some y0 -> PrimFloat.eqb y0 sentinel = true ->
  selected parts = Ok true.
Proof.
  intros H0 H2 Hf He. unfold selected, rbind.
  apply index_ok in H0, H2. apply float_ok in Hf.
  by rewrite H0, H2, Hf, He.
Qed.

Lemma selected_false parts sym :
  parts !! 0%nat = Some sym ->
  sym <> "O" \/
  (exists tok y0, parts !! 2%nat = Some tok /\ float_of_string tok = Some y0 /\
                  PrimFloat.eqb y0 sentinel = false) ->
  selected parts = Ok false.
Proof.
  intros H0 H. unfold selected, rbind. apply index_ok in H0. rewrite H0.
  destruct (String.eqb_spec sym "O") as [->|Hne].
  - destruct H as [H|(tok & y0 & H2 & Hf & He)]; [done|].
    apply index_ok in H2. apply float_ok in Hf. by rewrite H2, Hf, He.
  - done.
Qed.

Lemma modified_atom_selected y atom :
  selected (split atom) = Ok true ->
  modified_atom y atom = formatted_atom (<[2%nat := format_f 6 y]> (split atom)).
Proof. unfold modified_atom. by intros ->. Qed.

Lemma modified_atom_unselected y atom :
  selected (split atom) = Ok false ->
  modified_atom y atom = formatted_atom (split atom).
Proof. unfold modified_atom. by intros ->. Qed.

Lemma modified_atoms_lookup y atoms : forall modified i atom,
  modified_atoms y atoms = Ok modified -> atoms !! i = Some atom ->
  exists line, modified !! i = Some line /\ modified_atom y atom = Ok line.
Proof.
  induction atoms as [|a atoms IH]; intros modified i atom; [done|].
  cbn. unfold rbind.
  destruct (modified_atom y a) as [l|] eqn:E; [|discriminate].
  destruct (modified_atoms y atoms) as [ls|] eqn:Es; [|discriminate].
  intros [= <-]. destruct i as [|i]; cbn.
  - intros [= <-]. eauto.
  - by apply IH.
Qed.

Lemma modified_atoms_length y atoms modified :
  modified_atoms y atoms = Ok modified -> length modified = length atoms.
Proof.
  revert modified. induction atoms as [|a atoms IH]; intros modified; cbn.
  - by intros [= <-].
  - unfold rbind.
    destruct (modified_atom y a) as [l|]; [|discriminate].
    destruct (modified_atoms y atoms) as [ls|]; [|discriminate].
    intros [= <-]. cbn. by rewrite (IH ls).
Qed.

(** Case analysis on every test a line goes through. *)
Ltac line_cases :=
  repeat (cbn;
          match goal with
          | |- context [match float_of_string ?t with _ => _ end] =>
              destruct (float_of_string t) eqn:?
          | |- context [if ?b then _ else _] => destruct b eqn:?
          end);
  cbn; try discriminate; eauto.

Lemma modified_atom_malformed y atom :
  well_formed atom = false ->
  exists e, parse_error e /\ modified_atom y atom = Err e.
Proof.
  unfold well_formed, modified_atom, selected, formatted_atom, numeric,
    index, float_, rbind, parse_error.
  destruct (split atom) as [|sym [|tx [|ty [|tz rest]]]]; line_cases.
Qed.

Lemma modified_atom_err y atom e :
  modified_atom y atom = Err e -> parse_error e.
Proof.
  unfold modified_atom, selected, formatted_atom, index, float_, rbind,
    parse_error.
  destruct (split atom) as [|sym [|tx [|ty [|tz rest]]]]; line_cases;
    intros [= <-]; eauto.
Qed.

Lemma modified_atoms_malformed y atoms atom :
  In atom atoms -> well_formed atom = false ->
  exists e, parse_error e /\ modified_atoms y atoms = Err e.
Proof.
  intros Hin Hw. induction atoms as [|a atoms IH]; [done|].
  cbn. unfold rbind.
  destruct (modified_atom y a) as [l|e] eqn:E.
  - destruct Hin as [->|Hin].
    + destruct (modified_atom_malformed y atom Hw) as (e & _ & He). congruence.
    + destruct (IH Hin) as (e & Hp & ->). eauto.
  - apply modified_atom_err in E. eauto.
Qed.

(** A well-formed line never raises. *)
Lemma modified_atom_well_formed y atom :
  well_formed atom = true -> exists line, modified_atom y atom = Ok line.
Proof.
  assert (Hp := format_f_parses 6 y). destruct Hp as [y' Hp].
  unfold well_formed, modified_atom, selected, formatted_atom, numeric,
    index, float_, rbind.
  destruct (split atom) as [|sym [|tx [|ty [|tz rest]]]]; try discriminate.
  cbn.
  destruct (float_of_string tx) eqn:Ex, (float_of_string ty) as [y0|] eqn:Ey,
    (float_of_string tz) eqn:Ez; try discriminate; intros _.
  destruct (String.eqb sym "O"); cbn; rewrite ?Ex, ?Ey, ?Ez; cbn; eauto.
  destruct (PrimFloat.eqb y0 sentinel); cbn; rewrite ?Ex, ?Ey, ?Ez, ?Hp; cbn; eauto.
Qed.

End AtomFacts.
Import AtomFacts.

(** ** The whole run *)

Module RunFacts.

Lemma name_child (p : path) (c : string) : name (child p c) = c.
Proof. unfold name, child. apply last_last. Qed.

Lemma struc_not_prefix out y : ~ struc_file out y `prefix_of` increment_dir out y.
Proof.
  unfold struc_file, child. apply prefix_snoc_not.
Qed.

Lemma xyz_not_struc y : dir_name y +:+ ".xyz" <> "struc.xyz".
Proof.
  assert (Hc := dir_name_chars y). assert (Hn := dir_name_nonempty y).
  destruct (dir_name y) as [|c r]; [done|].
  intros [= -> _]. discriminate.
Qed.

(** What a completed step leaves in its directory: the geometry file,
    and its copy at the place [shutil.copy] chose. *)
Lemma sweep_step_files h a out y dirs s D t :
  sweep_step h a out y dirs s = (Done D, t) ->
  exists modified,
    modified_atoms y a = Ok modified /\
    t !! increment_file out y = Some (File (xyz_text h modified)) /\
    t !! copy_target s (increment_file out y) (struc_file out y)
      = Some (File (xyz_text h modified)).
Proof.
  intros H.
  apply sweep_step_done in H as (modified & s1 & s2 & Hm & Hmk & Hw & Hc & _).
  exists modified. split; [done|].
  assert (Hmade := path_mkdir_made (length (increment_dir out y)) true true
                     (increment_dir out y) s (struc_file out y)).
  fold (mkdir true true (increment_dir out y)) in Hmade.
  rewrite Hmk in Hmade. cbn in Hmade.
  destruct Hmade as [E1|(_ & _ & Hp)]; [|by apply struc_not_prefix in Hp].
  apply write_text_done in Hw as (-> & _ & _).
  assert (Hd : is_dir (<[increment_file out y := File (xyz_text h modified)]> s1)
                 (struc_file out y) = is_dir s (struc_file out y)).
  { unfold is_dir. rewrite node_at_insert_ne.
    - unfold struc_file, child, node_at.
      destruct (increment_dir out y ++ ["struc.xyz"]) eqn:E; [done|].
      unfold struc_file, child in E1. rewrite E in E1. by rewrite E1.
    - unfold increment_file, struc_file, child. intros E.
      apply app_inv_head in E. injection E as E.
      by apply xyz_not_struc in E. }
  destruct (copy_spec (increment_file out y) (struc_file out y)
              (<[increment_file out y := File (xyz_text h modified)]> s1))
    as [[e He]|(c & Hr & Hc' & _ & _ & Hne)]; [congruence|].
  rewrite Hc' in Hc. injection Hc as <-.
  rewrite node_at_insert_eq in Hr by apply child_nonempty.
  injection Hr as <-.
  unfold copy_target in *. rewrite Hd in *.
  rewrite lookup_insert_ne by done.
  by rewrite !lookup_insert_eq.
Qed.

Lemma manifest_text_names out vs :
  manifest_text (map (increment_dir out) vs) =
  String.concat EmptyString (map (fun v => dir_name v +:+ NL) vs).
Proof.
  unfold manifest_text. rewrite map_map. f_equal.
  apply map_ext. intros v. unfold increment_dir. by rewrite name_child.
Qed.

(** A run that completes: the turns of [sweep_values] were made, in that
    order; the manifest holds their directory names, one per line; the
    directories are there. *)
Lemma generator_done fuel inp out start stop step s t :
  increment_and_write_xyz fuel inp out start stop step s = (Done tt, t) ->
  exists vs,
    sweep_values fuel stop step start = Some vs /\
    t !! manifest out =
      Some (File (String.concat EmptyString (map (fun v => dir_name v +:+ NL) vs))) /\
    Forall (fun v => is_dir t (increment_dir out v) = true) vs.
Proof.
  unfold increment_and_write_xyz. intros H.
  unfold bind at 1 in H. unfold read_text in H at 1.
  destruct (node_at s inp) as [[|content]|]; try discriminate H.
  unfold bind at 1 in H.
  destruct (sweep fuel _ _ out stop step start [] s) as [[D| |] s1] eqn:E;
    try discriminate H.
  apply sweep_done_values in E as (vs & Hv & -> & Hall).
  apply write_text_done in H as (-> & _ & Hnd).
  exists vs. split; [done|]. split.
  - rewrite lookup_insert_eq. cbn [app]. by rewrite manifest_text_names.
  - eapply Forall_impl; [exact Hall|]. cbn. intros v Hd.
    eapply is_dir_grows; [|exact Hd]. by apply insert_file_grows.
Qed.

(** When the loop condition fails at once, the generator reads the input
    and writes an empty manifest, whatever the step. *)
Lemma no_turn fuel inp out start stop step s :
  PrimFloat.leb start stop = false ->
  increment_and_write_xyz fuel inp out start stop step s =
  bind (read_text inp) (fun _ => write_text (manifest out) EmptyString) s.
Proof.
  intros Hle. unfold increment_and_write_xyz, bind.
  destruct (read_text inp s) as [[content| |] s0]; try done.
  destruct fuel; cbn; by rewrite Hle.
Qed.

Lemma sweep_values_more fuel stop step : forall y vs k,
  sweep_values fuel stop step y = Some vs ->
  sweep_values (fuel + k) stop step y = Some vs /\ (length vs <= fuel)%nat.
Proof.
  induction fuel as [|fuel IH]; intros y vs k; cbn.
  - destruct (PrimFloat.leb y stop) eqn:E; [discriminate|]. intros [= <-].
    split; [|done]. destruct k; cbn; by rewrite E.
  - destruct (PrimFloat.leb y stop) eqn:E.
    + destruct (sweep_values fuel stop step (PrimFloat.add y step)) as [vs'|] eqn:Ev;
        [|discriminate].
      cbn. intros [= <-]. destruct (IH _ _ k Ev) as [-> Hl]. cbn. split; [done|lia].
    + intros [= <-]. cbn. split; [done|lia].
Qed.

(** With a zero step the loop condition never fails once it holds. *)
Lemma sweep_zero_step fuel h a out stop step :
  PrimFloat.eqb step 0 = true ->
  forall y dirs s D,
    PrimFloat.leb y stop = true ->
    (sweep fuel h a out stop step y dirs s).1 <> Done D.
Proof.
  intros Hz. induction fuel as [|fuel IH]; intros y dirs s D Hle; cbn; rewrite Hle.
  - done.
  - unfold bind.
    destruct (sweep_step h a out y dirs s) as [[D1| |] s1]; cbn; try done.
    apply IH. by apply leb_add_zero.
Qed.

End RunFacts.
Import RunFacts.

(** ** Tokens of a split line *)

Module SplitFacts.

Lemma append_assoc (a b c : string) : (a +:+ b) +:+ c = a +:+ (b +:+ c).
Proof.
  induction a as [|x a IH]; [done|].
  change (String x ((a +:+ b) +:+ c) = String x (a +:+ (b +:+ c))).
  by rewrite IH.
Qed.

Lemma split_ws_solid t : forall cur s,
  all_chars solid_char t = true ->
  split_ws cur (t +:+ s) = split_ws (rev (list_ascii_of_string t) ++ cur) s.
Proof.
  induction t as [|c t IH]; intros cur s Ht; [done|].
  cbn in Ht. apply andb_prop in Ht as [Hc Ht].
  change (String c t +:+ s) with (String c (t +:+ s)).
  cbn [split_ws list_ascii_of_string rev].
  unfold solid_char in Hc. destruct (is_space c); [done|].
  rewrite (IH _ _ Ht). by rewrite <- app_assoc.
Qed.

Lemma split_ws_blanks n s :
  split_ws [] (replicate_char n " " +:+ s) = split_ws [] s.
Proof.
  induction n as [|n IH]; [done|].
  change (replicate_char (S n) " " +:+ s)
    with (String " " (replicate_char n " " +:+ s)).
  cbn [split_ws]. exact IH.
Qed.

Lemma token_string t :
  string_of_list_ascii (rev (rev (list_ascii_of_string t) ++ [])) = t.
Proof.
  rewrite app_nil_r, rev_involutive. apply string_of_list_ascii_of_string.
Qed.

Lemma token_chars t :
  t <> EmptyString -> rev (list_ascii_of_string t) ++ [] <> [].
Proof.
  destruct t as [|c t]; [done|]. intros _ E.
  rewrite app_nil_r in E. apply (f_equal (@rev ascii)) in E.
  rewrite rev_involutive in E. discriminate.
Qed.

(** A token, blanks, one more blank, and the rest. *)
Lemma split_ws_token t n s :
  token t ->
  split_ws [] (t +:+ replicate_char n " " +:+ String " " s)
  = t :: split_ws [] s.
Proof.
  intros [Hne Ht]. rewrite (split_ws_solid t _ _ Ht).
  assert (Hc := token_chars t Hne).
  destruct n as [|n].
  - change (replicate_char 0 " " +:+ String " " s) with (String " " s).
    cbn [split_ws]. change (is_space " ") with true. cbv iota.
    destruct (rev (list_ascii_of_string t) ++ []) eqn:E; [done|].
    rewrite <- E, token_string. done.
  - change (replicate_char (S n) " " +:+ String " " s)
      with (String " " (replicate_char n " " +:+ String " " s)).
    cbn [split_ws]. change (is_space " ") with true. cbv iota.
    destruct (rev (list_ascii_of_string t) ++ []) eqn:E; [done|].
    rewrite <- E, token_string. f_equal.
    rewrite split_ws_blanks. reflexivity.
Qed.

Lemma split_ws_field t s :
  token t -> split_ws [] (t +:+ String " " s) = t :: split_ws [] s.
Proof. apply (split_ws_token t 0 s). Qed.

Lemma split_ws_last t : token t -> split_ws [] t = [t].
Proof.
  intros [Hne Ht]. rewrite <- (append_empty t) at 1.
  rewrite (split_ws_solid t _ _ Ht).
  assert (Hc := token_chars t Hne). cbn [split_ws].
  destruct (rev (list_ascii_of_string t) ++ []) eqn:E; [done|].
  by rewrite <- E, token_string.
Qed.

(** The fields of a canonical line are its symbol and its three numbers. *)
Lemma split_canonical sym x y z :
  token sym ->
  token (format_f 8 x) -> token (format_f 8 y) -> token (format_f 8 z) ->
  split (canonical sym x y z)
  = [sym; format_f 8 x; format_f 8 y; format_f 8 z].
Proof.
  intros Hs Hx Hy Hz. unfold split, canonical, coord, ljust, rjust.
  set (fx := format_f 8 x) in *. set (fy := format_f 8 y) in *.
  set (fz := format_f 8 z) in *.
  repeat match goal with
         | |- context [" " +:+ ?r] => change (" " +:+ r) with (String " " r)
         end.
  rewrite append_assoc, (split_ws_token sym _ _ Hs).
  rewrite append_assoc, split_ws_blanks, (split_ws_field fx _ Hx).
  rewrite append_assoc, split_ws_blanks, (split_ws_field fy _ Hy).
  by rewrite split_ws_blanks, (split_ws_last _ Hz).
Qed.


Lemma solid_string l :
  Forall (fun c => solid_char c = true) l ->
  all_chars solid_char (string_of_list_ascii l) = true.
Proof.
  induction 1 as [|c l Hc _ IH]; [done|]. cbn. by rewrite Hc, IH.
Qed.

Lemma split_ws_tokens s : forall cur,
  Forall (fun c => solid_char c = true) cur ->
  Forall token (split_ws cur s).
Proof.
  induction s as [|c s IH]; intros cur Hcur; cbn.
  - destruct cur as [|d cur]; [constructor|].
    constructor; [|constructor]. split.
    + intros E. apply (f_equal list_ascii_of_string) in E.
      rewrite list_ascii_of_string_of_list_ascii in E.
      apply (f_equal (@length ascii)) in E. rewrite length_rev in E. done.
    + apply solid_string. by apply Forall_rev.
  - destruct (is_space c) eqn:Hc.
    + destruct cur as [|d cur]; [by apply IH|].
      constructor; [|by apply IH]. split.
      * intros E. apply (f_equal list_ascii_of_string) in E.
        rewrite list_ascii_of_string_of_list_ascii in E.
        apply (f_equal (@length ascii)) in E. rewrite length_rev in E. done.
      * apply solid_string. by apply Forall_rev.
    + apply IH. constructor; [|done]. unfold solid_char. by rewrite Hc.
Qed.

(** Every token of [s.split()] is not empty and holds no whitespace. *)
Lemma split_tokens s : Forall token (split s).
Proof. apply split_ws_tokens. constructor. Qed.

Lemma format_f_token p x : token (format_f p x).
Proof.
  split.
  - unfold format_f. destruct (Prim2SF x) as [sg|sg| |sg m e].
    + destruct (fixed_number_head _ (point_fixed p "0" eq_refl))
        as (c & r & -> & _). by destruct sg.
    + by destruct sg.
    + done.
    + destruct (fixed_number_head _ (point_fixed p _ (decimal_digits (Z.to_N (scaled p m e)))))
        as (c & r & -> & _). by destruct sg.
  - eapply all_chars_impl, format_f_chars.
    intros [[] [] [] [] [] [] [] []]; (discriminate || reflexivity).
Qed.

End SplitFacts.

Import SplitFacts.

(** ** Rounding: digits and right shifts *)

Module RoundFacts.
Local Open Scope Z_scope.

Lemma digits2_size m : digits2_pos m = Pos.size m.
Proof. induction m as [m IH|m IH|]; cbn; by rewrite ?IH. Qed.

Lemma digits_bounds m :
  2 ^ (Zpos (digits2_pos m) - 1) <= Zpos m < 2 ^ Zpos (digits2_pos m).
Proof.
  rewrite digits2_size. split.
  - assert (H := Pos.size_le m).
    assert (E : Zpos (2 ^ Pos.size m) = 2 ^ Zpos (Pos.size m)) by apply Pos2Z.inj_pow.
    assert (2 ^ Zpos (Pos.size m) = 2 * 2 ^ (Zpos (Pos.size m) - 1)).
    { rewrite <- Z.pow_succ_r by lia. f_equal. lia. }
    lia.
  - assert (H := Pos.size_gt m).
    assert (E : Zpos (2 ^ Pos.size m) = 2 ^ Zpos (Pos.size m)) by apply Pos2Z.inj_pow.
    lia.
Qed.

(** The number of digits is determined by the bounds. *)
Lemma digits_unique m d :
  2 ^ (d - 1) <= Zpos m < 2 ^ d -> Zpos (digits2_pos m) = d.
Proof.
  intros [L U]. destruct (digits_bounds m) as [L' U'].
  destruct (Z.lt_trichotomy (Zpos (digits2_pos m)) d) as [H|[H|H]]; [|done|].
  - assert (2 ^ Zpos (digits2_pos m) <= 2 ^ (d - 1))
      by (apply Z.pow_le_mono_r; lia). lia.
  - assert (0 <= d \/ d < 0) as [Hd|Hd] by lia.
    + assert (2 ^ d <= 2 ^ (Zpos (digits2_pos m) - 1))
        by (apply Z.pow_le_mono_r; lia). lia.
    + rewrite (Z.pow_neg_r 2 d) in U by lia. lia.
Qed.

Lemma iter_pos_invariant {A} (f : A -> A) (P : Z -> A -> Prop) :
  (forall k x, 0 <= k -> P k x -> P (k + 1) (f x)) ->
  forall p k x, 0 <= k -> P k x -> P (k + Zpos p) (SpecFloat.iter_pos f p x).
Proof.
  intros Hf. induction p as [p IH|p IH|]; intros k x Hk HP; cbn.
  - replace (k + Zpos p~1) with (k + 1 + Zpos p + Zpos p) by lia.
    apply IH; [lia|]. apply IH; [lia|]. by apply Hf.
  - replace (k + Zpos p~0) with (k + Zpos p + Zpos p) by lia.
    apply IH; [lia|]. by apply IH.
  - by apply Hf.
Qed.

Lemma iter_xO m d : Zpos (Pos.iter xO m d) = Zpos m * 2 ^ Zpos d.
Proof.
  induction d as [|d IH] using Pos.peano_ind.
  - cbn. lia.
  - rewrite Pos.iter_succ, Pos2Z.inj_xO, IH, Pos2Z.inj_succ, Z.pow_succ_r by lia.
    lia.
Qed.

Lemma shr_1_spec m r s :
  0 <= m ->
  shr_1 (Build_shr_record m r s) = Build_shr_record (m / 2) (Z.odd m) (r || s).
Proof.
  intros Hm. destruct m as [|[p|p|]|p]; try lia; cbn [shr_1]; f_equal.
  - rewrite Pos2Z.inj_xI. apply (Z.div_unique _ _ _ 1); lia.
  - rewrite Pos2Z.inj_xO. apply (Z.div_unique _ _ _ 0); lia.
Qed.

Lemma shifted_step M k r :
  0 <= M -> 0 <= k -> shifted_by M k r -> shifted_by M (k + 1) (shr_1 r).
Proof.
  intros HM Hk [Hm Hf]. destruct r as [m r s]. cbn in Hm, Hf.
  assert (P : 0 < 2 ^ k) by (apply Z.pow_pos_nonneg; lia).
  assert (Hm0 : 0 <= m) by (subst m; apply Z.div_pos; lia).
  rewrite shr_1_spec by done. unfold shifted_by. cbn.
  assert (E : 2 ^ (k + 1) = 2 ^ k * 2) by (rewrite Z.pow_add_r; lia).
  rewrite E. split.
  - subst m. by rewrite Z.div_div by lia.
  - rewrite Z.rem_mul_r by lia. intros H.
    assert (0 <= M mod 2 ^ k < 2 ^ k) by (apply Z.mod_pos_bound; lia).
    assert (0 <= (M / 2 ^ k) mod 2 < 2) by (apply Z.mod_pos_bound; lia).
    destruct (Z.odd m) eqn:Ho.
    + assert (Hodd : (M / 2 ^ k) mod 2 = 1) by (by rewrite Zmod_odd, <- Hm, Ho).
      nia.
    + cbn in H. apply Hf in H. nia.
Qed.

Lemma shr_spec M e n :
  0 < M ->
  let '(r, e') := shr (Build_shr_record M false false) e n in
  shifted_by M (Z.max 0 n) r /\ e' = e + Z.max 0 n.
Proof.
  intros HM. unfold shr. destruct n as [|p|p].
  - split; [|cbn; lia]. split; cbn; [by rewrite Z.div_1_r | done].
  - replace (Z.max 0 (Zpos p)) with (0 + Zpos p) by lia. split; [|lia].
    apply (iter_pos_invariant shr_1 (shifted_by M)).
    + intros k x Hk. apply shifted_step; lia.
    + lia.
    + split; cbn; [by rewrite Z.div_1_r | done].
  - split; [|cbn; lia]. split; cbn; [by rewrite Z.div_1_r | done].
Qed.

End RoundFacts.
Import RoundFacts.

(** ** Rounding: the arithmetic of the bounds *)

Module RoundCore.
Local Open Scope Z_scope.

Lemma pow2_pos k : 0 <= k -> 0 < 2 ^ k.
Proof. intros. apply Z.pow_pos_nonneg; lia. Qed.

Lemma pow2_add a b : 0 <= a -> 0 <= b -> 2 ^ (a + b) = 2 ^ a * 2 ^ b.
Proof. intros. by apply Z.pow_add_r. Qed.

Lemma pow2_le a b : a <= b -> 2 ^ a <= 2 ^ b.
Proof. intros. apply Z.pow_le_mono_r; lia. Qed.

Lemma pow2_lt_inv a b : 0 <= b -> 2 ^ a < 2 ^ b -> a < b.
Proof. intros Hb H. apply (Z.pow_lt_mono_r_iff 2); [lia | done | done]. Qed.

(** A canonical mantissa of [dm] digits at exponent [E] (counted from the
    least exponent): [E] is what the format gives a number of [dm + E]
    digits. *)
Lemma canonical_digits dm E :
  1 <= dm -> E = Z.max (dm + E - 53) 0 -> dm <= 53 /\ (0 < E -> dm = 53).
Proof. lia. Qed.

Lemma core_lower d dm mz m EZ E F n q :
  0 <= EZ -> 1 <= d -> 1 <= dm ->
  2 ^ (d - 1) <= mz < 2 ^ d -> 2 ^ (dm - 1) <= m < 2 ^ dm ->
  F = Z.max (d + EZ - 53) 0 -> E = Z.max (dm + E - 53) 0 ->
  EZ <= F -> n = F - EZ -> q = mz / 2 ^ n ->
  m * 2 ^ E <= mz * 2 ^ EZ ->
  E < F \/ (E = F /\ m <= q).
Proof.
  intros HEZ Hd Hdm [Lz Uz] [Lm Um] HF HE HEF Hn Hq Hle.
  destruct (canonical_digits dm E Hdm HE) as [Hdm53 Hnorm].
  assert (PEZ := pow2_pos EZ HEZ).
  destruct (Z.lt_trichotomy E F) as [H|[H|H]]; [by left | right | exfalso].
  - split; [done|]. subst q. apply Z.div_le_lower_bound; [apply pow2_pos; lia|].
    assert (2 ^ E = 2 ^ n * 2 ^ EZ) by (rewrite <- pow2_add by lia; f_equal; lia).
    nia.
  - assert (dm = 53) by lia. subst dm.
    assert (2 ^ (52 + E) <= m * 2 ^ E).
    { rewrite pow2_add by lia. replace (53 - 1) with 52 in Lm by lia.
      assert (0 < 2 ^ E) by (apply pow2_pos; lia). nia. }
    assert (mz * 2 ^ EZ < 2 ^ (d + EZ)).
    { rewrite pow2_add by lia. nia. }
    assert (2 ^ (d + EZ) <= 2 ^ (52 + E)) by (apply pow2_le; lia).
    lia.
Qed.

Lemma core_upper d dm mz m EZ E F n q :
  0 <= EZ -> 0 <= E -> 1 <= d -> 1 <= dm ->
  2 ^ (d - 1) <= mz < 2 ^ d -> 2 ^ (dm - 1) <= m < 2 ^ dm ->
  F = Z.max (d + EZ - 53) 0 -> E = Z.max (dm + E - 53) 0 ->
  EZ <= F -> n = F - EZ -> q = mz / 2 ^ n ->
  mz * 2 ^ EZ <= m * 2 ^ E ->
  F <= E /\
  (F = E -> q <= m /\ (mz mod 2 ^ n <> 0 -> q + 1 <= m)) /\
  (F < E -> 2 ^ 52 <= m) /\
  m < 2 ^ 53.
Proof.
  intros HEZ HE0 Hd Hdm [Lz Uz] [Lm Um] HF HE HEF Hn Hq Hle.
  destruct (canonical_digits dm E Hdm HE) as [Hdm53 Hnorm].
  assert (PEZ := pow2_pos EZ HEZ). assert (PE := pow2_pos E HE0).
  assert (Hdig : d + EZ <= dm + E).
  { assert (2 ^ (d - 1 + EZ) <= mz * 2 ^ EZ) by (rewrite pow2_add by lia; nia).
    assert (m * 2 ^ E < 2 ^ (dm + E)) by (rewrite pow2_add by lia; nia).
    assert (d - 1 + EZ < dm + E) by (apply pow2_lt_inv; lia). lia. }
  split; [lia|]. split; [|split].
  - intros ->. assert (Pn : 0 < 2 ^ n) by (apply pow2_pos; lia).
    assert (E2 : 2 ^ E = 2 ^ n * 2 ^ EZ) by (rewrite <- pow2_add by lia; f_equal; lia).
    assert (Hm : mz <= m * 2 ^ n) by nia.
    assert (Hdiv := Z.div_mod mz (2 ^ n) ltac:(lia)).
    assert (Hrem := Z.mod_pos_bound mz (2 ^ n) Pn).
    rewrite <- Hq in Hdiv. split; [nia|]. intros Hne. nia.
  - intros H. assert (dm = 53) by lia. subst dm.
    by replace (53 - 1) with 52 in Lm by lia.
  - assert (2 ^ dm <= 2 ^ 53) by (apply pow2_le; lia). lia.
Qed.

End RoundCore.
Import RoundCore.

(** ** Rounding an exact number to the format *)

Module RoundSpec.
Local Open Scope Z_scope.

Lemma fexp_eq e : fexp prec emax e = Z.max (e - 53) (-1074).
Proof. reflexivity. Qed.

Lemma bounded_spec m e :
  bounded prec emax m e = true ->
  e = Z.max (Zpos (digits2_pos m) + e - 53) (-1074) /\ e <= 971.
Proof.
  unfold bounded, canonical_mantissa. rewrite fexp_eq.
  intros [H1 H2]%andb_prop. apply Z.eqb_eq in H1. apply Z.leb_le in H2.
  change (emax - prec) with 971 in H2. lia.
Qed.

Lemma rne_bounds r :
  let m1 := round_nearest_even (shr_m r) (loc_of_shr_record r) in
  shr_m r <= m1 <= shr_m r + 1 /\
  (m1 <> shr_m r -> shr_r r || shr_s r = true).
Proof.
  destruct r as [m [] []]; cbn; try destruct (Z.even m); split; (lia || done).
Qed.

(** Rounding an exact positive number [mz * 2^ez] whose exponent is not
    above the one of the format. *)
Lemma binary_round_aux_exact s mz ez :
  -1074 <= ez ->
  ez <= fexp prec emax (Zpos (digits2_pos mz) + ez) ->
  let r := binary_round_aux prec emax s (Zpos mz) ez loc_Exact in
  (r = S754_infinity s \/ exists m' e', r = S754_finite s m' e') /\
  (forall m e, bounded prec emax m e = true ->
     Zpos m * 2 ^ (e + 1074) <= Zpos mz * 2 ^ (ez + 1074) -> mag_ge r m e) /\
  (forall m e, bounded prec emax m e = true ->
     Zpos mz * 2 ^ (ez + 1074) <= Zpos m * 2 ^ (e + 1074) -> mag_le r m e).
Proof.
  intros Hez Hal. cbv zeta.
  unfold binary_round_aux, shr_fexp. cbn [Zdigits2 shr_record_of_loc].
  rewrite fexp_eq in *.
  set (d := Zpos (digits2_pos mz)) in *.
  set (f := Z.max (d + ez - 53) (-1074)) in *.
  assert (Hd := digits_bounds mz). fold d in Hd.
  assert (Hd1 : 1 <= d) by (unfold d; lia).
  assert (S1 := shr_spec (Zpos mz) ez (f - ez) ltac:(lia)).
  destruct (shr {| shr_m := Zpos mz; shr_r := false; shr_s := false |} ez (f - ez))
    as [r1 e1].
  destruct S1 as [[Hq Hflag] He1].
  replace (Z.max 0 (f - ez)) with (f - ez) in * by lia.
  assert (He1' : e1 = f) by lia. clear He1. subst e1.
  set (n := f - ez) in *.
  assert (Pn : 0 < 2 ^ n) by (apply pow2_pos; lia).
  (* the quotient *)
  assert (Hq1 : 2 ^ (d - 1 - n) <= shr_m r1 < 2 ^ (d - n)).
  { rewrite Hq. split.
    - apply Z.div_le_lower_bound; [done|].
      rewrite Z.mul_comm, <- pow2_add by lia.
      replace (d - 1 - n + n) with (d - 1) by lia. lia.
    - apply Z.div_lt_upper_bound; [done|].
      rewrite <- pow2_add by lia. replace (n + (d - n)) with d by lia. lia. }
  assert (Hq0 : 1 <= shr_m r1).
  { assert (0 < 2 ^ (d - 1 - n)) by (apply pow2_pos; lia). lia. }
  assert (Hq53 : shr_m r1 < 2 ^ 53).
  { assert (2 ^ (d - n) <= 2 ^ 53) by (apply pow2_le; lia). lia. }
  destruct (rne_bounds r1) as [Hm1 Hm1f]. cbv zeta in Hm1, Hm1f.
  set (m1 := round_nearest_even (shr_m r1) (loc_of_shr_record r1)) in *.
  destruct m1 as [|p1|p1] eqn:Em1; try lia.
  cbn [Zdigits2 shr_record_of_loc]. rewrite fexp_eq.
  set (d1 := Zpos (digits2_pos p1)).
  assert (Hd1b := digits_bounds p1). fold d1 in Hd1b.
  assert (S2 := shr_spec (Zpos p1) f (Z.max (d1 + f - 53) (-1074) - f) ltac:(lia)).
  destruct (shr {| shr_m := Zpos p1; shr_r := false; shr_s := false |} f
              (Z.max (d1 + f - 53) (-1074) - f)) as [r2 e2].
  destruct S2 as [[Hq2 _] He2].
  (* the second shift: none, or one when the mantissa has reached 2^53 *)
  assert (Hcases : (Zpos p1 < 2 ^ 53 /\ shr_m r2 = Zpos p1 /\ e2 = f) \/
                   (Zpos p1 = 2 ^ 53 /\ shr_m r2 = 2 ^ 52 /\ e2 = f + 1)).
  { destruct (Z.lt_trichotomy (Zpos p1) (2 ^ 53)) as [H|[H|H]]; [left|right|lia].
    - assert (d1 <= 53).
      { destruct (Z.le_gt_cases d1 53) as [?|G]; [done|].
        assert (2 ^ 53 <= 2 ^ (d1 - 1)) by (apply pow2_le; lia). lia. }
      replace (Z.max 0 (Z.max (d1 + f - 53) (-1074) - f)) with 0 in * by lia.
      rewrite Z.pow_0_r, Z.div_1_r in Hq2. split; [done|]. split; [done|lia].
    - assert (d1 = 54).
      { apply digits_unique. rewrite H. split; [done|].
        apply Z.pow_lt_mono_r; lia. }
      replace (Z.max 0 (Z.max (d1 + f - 53) (-1074) - f)) with 1 in * by lia.
      split; [done|]. split; [|lia]. rewrite Hq2, H. reflexivity. }
  assert (Hdz : 2 ^ (d - 1) <= Zpos mz < 2 ^ d) by done.
  assert (HF : f + 1074 = Z.max (d + (ez + 1074) - 53) 0) by lia.
  assert (Canon : forall m e, bounded prec emax m e = true ->
            2 ^ (Zpos (digits2_pos m) - 1) <= Zpos m < 2 ^ Zpos (digits2_pos m) /\
            e + 1074 = Z.max (Zpos (digits2_pos m) + (e + 1074) - 53) 0 /\
            e <= 971).
  { intros m e [Hc Hb]%bounded_spec. split; [apply digits_bounds|]. lia. }
  assert (Lower : forall m e, bounded prec emax m e = true ->
            Zpos m * 2 ^ (e + 1074) <= Zpos mz * 2 ^ (ez + 1074) ->
            e < f \/ (e = f /\ Zpos m <= shr_m r1)).
  { intros m e Hb Hle. destruct (Canon m e Hb) as (Hdm & HE & _).
    destruct (core_lower d (Zpos (digits2_pos m)) (Zpos mz) (Zpos m)
                (ez + 1074) (e + 1074) (f + 1074) n (shr_m r1)
                ltac:(lia) Hd1 ltac:(lia) Hdz Hdm HF HE ltac:(lia)
                ltac:(unfold n; lia) Hq Hle) as [H|[H1 H2]]; lia. }
  assert (Upper : forall m e, bounded prec emax m e = true ->
            Zpos mz * 2 ^ (ez + 1074) <= Zpos m * 2 ^ (e + 1074) ->
            e <= 971 /\ f <= e /\ (f = e -> Zpos p1 <= Zpos m) /\
            (f < e -> 2 ^ 52 <= Zpos m) /\ Zpos m < 2 ^ 53).
  { intros m e Hb Hle. destruct (Canon m e Hb) as (Hdm & HE & Hmax).
    destruct (core_upper d (Zpos (digits2_pos m)) (Zpos mz) (Zpos m)
                (ez + 1074) (e + 1074) (f + 1074) n (shr_m r1)
                ltac:(lia) ltac:(lia) Hd1 ltac:(lia) Hdz Hdm HF HE ltac:(lia)
                ltac:(unfold n; lia) Hq Hle) as (H1 & H2 & H3 & H4).
    split; [done|]. split; [lia|]. split; [|split; [|done]].
    - intros Hfe. destruct H2 as [H2a H2b]; [lia|].
      destruct (Z.eq_dec (Zpos p1) (shr_m r1)) as [E|E]; [lia|].
      assert (Zpos mz mod 2 ^ n <> 0) by (apply Hflag, Hm1f; lia).
      specialize (H2b ltac:(done)). lia.
    - intros Hfe. apply H3. lia. }
  clear Canon.
  destruct Hcases as [(Hlt & -> & ->)|(Heq & -> & ->)].
  - (* no carry *)
    destruct (f <=? emax - prec) eqn:Hov; (split; [eauto|]); split.
    + intros m e Hb Hle. destruct (Lower m e Hb Hle) as [H|[H1 H2]]; cbn.
      * by left.
      * right. split; [done|]. lia.
    + intros m e Hb Hle. destruct (Upper m e Hb Hle) as (U0 & U1 & U2 & U3 & U4).
      cbn. destruct (Z.eq_dec f e) as [Hfe|Hfe]; [right|left; lia].
      split; [done|]. specialize (U2 Hfe). lia.
    + intros m e Hb Hle. done.
    + intros m e Hb Hle. destruct (Upper m e Hb Hle) as (U0 & U1 & U2 & U3 & U4).
      apply Z.leb_gt in Hov. change (emax - prec) with 971 in Hov. lia.
  - (* the mantissa has reached 2^53 *)
    change (2 ^ 52) with (Zpos (2 ^ 52)%positive).
    destruct (f + 1 <=? emax - prec) eqn:Hov; (split; [eauto|]); split.
    + intros m e Hb Hle. destruct (Lower m e Hb Hle) as [H|[H1 H2]]; cbn; left; lia.
    + intros m e Hb Hle. destruct (Upper m e Hb Hle) as (U0 & U1 & U2 & U3 & U4).
      assert (Hne : f <> e) by (intros Hfe; specialize (U2 Hfe); lia).
      cbn. destruct (Z.eq_dec (f + 1) e) as [Hfe|Hfe]; [right|left; lia].
      split; [done|]. specialize (U3 ltac:(lia)).
      change (2 ^ 52) with (Zpos (2 ^ 52)%positive) in U3. lia.
    + intros m e Hb Hle. done.
    + intros m e Hb Hle. destruct (Upper m e Hb Hle) as (U0 & U1 & U2 & U3 & U4).
      assert (Hne : f <> e) by (intros Hfe; specialize (U2 Hfe); lia).
      apply Z.leb_gt in Hov. change (emax - prec) with 971 in Hov. lia.
Qed.

End RoundSpec.
Import RoundSpec.

(** ** Float addition does not go against the sign of the step *)

Module AddFacts.
Local Open Scope Z_scope.

Lemma fst_shl_align m e e' :
  e' <= e -> Zpos (fst (shl_align m e e')) = Zpos m * 2 ^ (e - e').
Proof.
  intros H. unfold shl_align. destruct (e' - e) as [|k|k] eqn:E; cbn [fst]; try lia.
  - replace (e - e') with 0 by lia. lia.
  - rewrite iter_xO. f_equal. f_equal. lia.
Qed.

(** Rounding the exact positive number [M * 2^e]. *)
Lemma binary_round_spec s M e :
  -1074 <= e ->
  let r := binary_round prec emax s M e in
  (r = S754_infinity s \/ exists m' e', r = S754_finite s m' e') /\
  (forall m e0, bounded prec emax m e0 = true ->
     Zpos m * 2 ^ (e0 + 1074) <= Zpos M * 2 ^ (e + 1074) -> mag_ge r m e0) /\
  (forall m e0, bounded prec emax m e0 = true ->
     Zpos M * 2 ^ (e + 1074) <= Zpos m * 2 ^ (e0 + 1074) -> mag_le r m e0).
Proof.
  intros He. cbv zeta. unfold binary_round.
  set (d := Zpos (digits2_pos M)).
  assert (Hf : fexp prec emax (d + e) = Z.max (d + e - 53) (-1074)) by apply fexp_eq.
  set (f := fexp prec emax (d + e)) in *.
  unfold shl_align. destruct (f - e) as [|k|k] eqn:E.
  - apply binary_round_aux_exact; [done|]. fold d. fold f. lia.
  - apply binary_round_aux_exact; [done|]. fold d. fold f. lia.
  - assert (Hk : Zpos k = e - f) by lia.
    assert (Hmz := iter_xO M k).
    assert (Hd := digits_bounds M). fold d in Hd.
    assert (Pk : 0 < 2 ^ Zpos k) by (apply pow2_pos; lia).
    assert (Hdz : Zpos (digits2_pos (Pos.iter xO M k)) = d + Zpos k).
    { apply digits_unique. rewrite Hmz.
      replace (d + Zpos k - 1) with (d - 1 + Zpos k) by lia.
      rewrite !pow2_add by (unfold d; lia). nia. }
    assert (Hval : Zpos (Pos.iter xO M k) * 2 ^ (f + 1074)
                   = Zpos M * 2 ^ (e + 1074)).
    { rewrite Hmz, <- Z.mul_assoc, <- pow2_add by lia. do 2 f_equal. lia. }
    rewrite <- Hval. apply binary_round_aux_exact; [lia|].
    rewrite Hdz, fexp_eq. lia.
Qed.

Lemma leb_pos_ge m e r :
  (r = S754_infinity false \/ exists m' e', r = S754_finite false m' e') ->
  mag_ge r m e -> SFleb (S754_finite false m e) r = true.
Proof.
  intros [->|(m' & e' & ->)]; [done|]. cbn. intros [H|[<- H]]; unfold SFleb; cbn.
  - by rewrite (proj2 (Z.compare_lt_iff e e') H).
  - rewrite Z.compare_refl. change (Pos.compare_cont Eq m m') with (m ?= m')%positive.
    apply Pos.compare_le_iff in H. by destruct (m ?= m')%positive.
Qed.

Lemma leb_pos_le m e r :
  (r = S754_infinity false \/ exists m' e', r = S754_finite false m' e') ->
  mag_le r m e -> SFleb r (S754_finite false m e) = true.
Proof.
  intros [->|(m' & e' & ->)]; [done|]. cbn. intros [H|[<- H]]; unfold SFleb; cbn.
  - by rewrite (proj2 (Z.compare_lt_iff e' e) H).
  - rewrite Z.compare_refl. change (Pos.compare_cont Eq m' m) with (m' ?= m)%positive.
    apply Pos.compare_le_iff in H. by destruct (m' ?= m)%positive.
Qed.

Lemma leb_neg_le m e r :
  (r = S754_infinity true \/ exists m' e', r = S754_finite true m' e') ->
  mag_le r m e -> SFleb (S754_finite true m e) r = true.
Proof.
  intros [->|(m' & e' & ->)]; [done|]. cbn. intros [H|[<- H]]; unfold SFleb; cbn.
  - by rewrite (proj2 (Z.compare_gt_iff e e') H).
  - rewrite Z.compare_refl. change (Pos.compare_cont Eq m m') with (m ?= m')%positive.
    apply Pos.compare_ge_iff in H. by destruct (m ?= m')%positive.
Qed.

Lemma leb_neg_ge m e r :
  (r = S754_infinity true \/ exists m' e', r = S754_finite true m' e') ->
  mag_ge r m e -> SFleb r (S754_finite true m e) = true.
Proof.
  intros [->|(m' & e' & ->)]; [done|]. cbn. intros [H|[<- H]]; unfold SFleb; cbn.
  - by rewrite (proj2 (Z.compare_gt_iff e' e) H).
  - rewrite Z.compare_refl. change (Pos.compare_cont Eq m' m) with (m' ?= m)%positive.
    apply Pos.compare_ge_iff in H. by destruct (m' ?= m)%positive.
Qed.

(** The sum of two finite floats, as [binary_normalize] of the exact
    sum of their mantissas at the smaller exponent. *)
Lemma SFadd_finite sx mx ex sy my ey :
  bounded prec emax mx ex = true -> bounded prec emax my ey = true ->
  let ez := Z.min ex ey in
  -1074 <= ez /\
  SF64add (S754_finite sx mx ex) (S754_finite sy my ey)
  = binary_normalize prec emax
      (cond_Zopp sx (Zpos mx * 2 ^ (ex - ez)) + cond_Zopp sy (Zpos my * 2 ^ (ey - ez)))
      ez false /\
  Zpos mx * 2 ^ (ex - ez) * 2 ^ (ez + 1074) = Zpos mx * 2 ^ (ex + 1074) /\
  Zpos my * 2 ^ (ey - ez) * 2 ^ (ez + 1074) = Zpos my * 2 ^ (ey + 1074).
Proof.
  intros [Hx _]%bounded_spec [Hy _]%bounded_spec. cbv zeta.
  split; [lia|]. split; [|split].
  - unfold SF64add, SFadd. by rewrite !fst_shl_align by lia.
  - rewrite <- Z.mul_assoc, <- pow2_add by lia. do 2 f_equal. lia.
  - rewrite <- Z.mul_assoc, <- pow2_add by lia. do 2 f_equal. lia.
Qed.

(** The sum of two finite floats is a zero, an infinity or a finite
    float. *)
Lemma SFadd_finite_not_nan sx mx ex sy my ey :
  bounded prec emax mx ex = true -> bounded prec emax my ey = true ->
  SF64add (S754_finite sx mx ex) (S754_finite sy my ey) <> S754_nan.
Proof.
  intros Hx Hy. destruct (SFadd_finite sx mx ex sy my ey Hx Hy) as (Hez & -> & _).
  unfold binary_normalize.
  destruct (cond_Zopp sx _ + cond_Zopp sy _) as [|p|p]; [done| |].
  - destruct (binary_round_spec false p _ Hez) as ([->|(? & ? & ->)] & _); done.
  - destruct (binary_round_spec true p _ Hez) as ([->|(? & ? & ->)] & _); done.
Qed.

(** Adding a float that is not negative does not give less. *)
Lemma SFadd_up x s :
  valid_binary x = true -> valid_binary s = true ->
  SFleb (S754_zero false) s = true ->
  x <> S754_nan ->
  SF64add x s = S754_nan \/ SFleb x (SF64add x s) = true.
Proof.
  intros Vx Vs Hs Hx.
  destruct s as [ss|ss| |ss ms es]; try done.
  - (* a zero *)
    right. destruct x as [sx|sx| |sx mx ex]; try done.
    + by destruct sx, ss.
    + by destruct sx.
    + unfold SFleb. cbn. rewrite Z.compare_refl.
      change (Pos.compare_cont Eq mx mx) with (mx ?= mx)%positive.
      rewrite Pos.compare_refl. by destruct sx.
  - (* an infinity *)
    destruct ss; [done|]. destruct x as [sx|sx| |sx mx ex]; try done.
    + by right.
    + destruct sx; [by left | by right].
    + right. by destruct sx.
  - (* a finite float *)
    destruct ss; [done|]. destruct x as [sx|sx| |sx mx ex]; try done.
    + by right.
    + right. by destruct sx.
    + right. cbn in Vx, Vs.
      destruct (SFadd_finite sx mx ex false ms es Vx Vs) as (Hez & -> & Ex & Es).
      set (ez := Z.min ex es) in *.
      set (A := Zpos mx * 2 ^ (ex - ez)) in *.
      set (B := Zpos ms * 2 ^ (es - ez)) in *.
      assert (PA : 0 < A) by (apply Z.mul_pos_pos; [done | apply pow2_pos; lia]).
      assert (PB : 0 < B) by (apply Z.mul_pos_pos; [done | apply pow2_pos; lia]).
      assert (PZ : 0 < 2 ^ (ez + 1074)) by (apply pow2_pos; lia).
      unfold binary_normalize. destruct sx; cbn [cond_Zopp].
      * destruct (- A + B) as [|p|p] eqn:EM.
        -- done.
        -- destruct (binary_round_spec false p ez Hez) as ([->|(? & ? & ->)] & _); done.
        -- destruct (binary_round_spec true p ez Hez) as (Sh & _ & Up).
           apply leb_neg_le; [done|]. apply Up; [done|]. rewrite <- Ex. nia.
      * destruct (A + B) as [|p|p] eqn:EM; try lia.
        destruct (binary_round_spec false p ez Hez) as (Sh & Lo & _).
        apply leb_pos_ge; [done|]. apply Lo; [done|]. rewrite <- Ex. nia.
Qed.

(** Adding a float that is not positive does not give more. *)
Lemma SFadd_down x s :
  valid_binary x = true -> valid_binary s = true ->
  SFleb s (S754_zero false) = true ->
  x <> S754_nan ->
  SF64add x s = S754_nan \/ SFleb (SF64add x s) x = true.
Proof.
  intros Vx Vs Hs Hx.
  destruct s as [ss|ss| |ss ms es]; try done.
  - (* a zero *)
    right. destruct x as [sx|sx| |sx mx ex]; try done.
    + by destruct sx, ss.
    + by destruct sx.
    + unfold SFleb. cbn. rewrite Z.compare_refl.
      change (Pos.compare_cont Eq mx mx) with (mx ?= mx)%positive.
      rewrite Pos.compare_refl. by destruct sx.
  - (* an infinity *)
    destruct ss; [|done]. destruct x as [sx|sx| |sx mx ex]; try done.
    + by right.
    + destruct sx; [by right | by left].
    + right. by destruct sx.
  - (* a finite float *)
    destruct ss; [|done]. destruct x as [sx|sx| |sx mx ex]; try done.
    + by right.
    + right. by destruct sx.
    + right. cbn in Vx, Vs.
      destruct (SFadd_finite sx mx ex true ms es Vx Vs) as (Hez & -> & Ex & Es).
      set (ez := Z.min ex es) in *.
      set (A := Zpos mx * 2 ^ (ex - ez)) in *.
      set (B := Zpos ms * 2 ^ (es - ez)) in *.
      assert (PA : 0 < A) by (apply Z.mul_pos_pos; [done | apply pow2_pos; lia]).
      assert (PB : 0 < B) by (apply Z.mul_pos_pos; [done | apply pow2_pos; lia]).
      assert (PZ : 0 < 2 ^ (ez + 1074)) by (apply pow2_pos; lia).
      unfold binary_normalize. destruct sx; cbn [cond_Zopp].
      * destruct (- A + - B) as [|p|p] eqn:EM; try lia.
        destruct (binary_round_spec true p ez Hez) as (Sh & Lo & _).
        apply leb_neg_ge; [done|]. apply Lo; [done|]. rewrite <- Ex. nia.
      * destruct (A + - B) as [|p|p] eqn:EM.
        -- done.
        -- destruct (binary_round_spec false p ez Hez) as (Sh & _ & Up).
           apply leb_pos_le; [done|]. apply Up; [done|]. rewrite <- Ex. nia.
        -- destruct (binary_round_spec true p ez Hez) as ([->|(? & ? & ->)] & _); done.
Qed.

End AddFacts.
Import AddFacts.

(** ** The order of floats *)

Module OrderFacts.
Lemma SFleb_trans a b c :
  SFleb a b = true -> SFleb b c = true -> SFleb a c = true.
Proof.
  unfold SFleb.
  destruct a as [sa|sa| |sa ma ea], b as [sb|sb| |sb mb eb],
    c as [sc|sc| |sc mc ec]; cbn;
    try destruct sa; try destruct sb; try destruct sc; try done.
  all: change (Pos.compare_cont Eq ?p ?q) with (p ?= q)%positive.
  all: destruct (Z.compare_spec ea eb), (Z.compare_spec eb ec),
         (Z.compare_spec ea ec); try lia; try done; cbn.
  all: destruct (Pos.compare_spec ma mb), (Pos.compare_spec mb mc),
         (Pos.compare_spec ma mc); try lia; try done.
Qed.

Lemma SFltb_leb a b : SFltb a b = true -> SFleb a b = true.
Proof. unfold SFltb, SFleb. by destruct (SFcompare a b) as [[]|]. Qed.

Lemma SFltb_trans a b c :
  SFltb a b = true -> SFltb b c = true -> SFltb a c = true.
Proof.
  unfold SFltb.
  destruct a as [sa|sa| |sa ma ea], b as [sb|sb| |sb mb eb],
    c as [sc|sc| |sc mc ec]; cbn;
    try destruct sa; try destruct sb; try destruct sc; try done.
  all: change (Pos.compare_cont Eq ?p ?q) with (p ?= q)%positive.
  all: destruct (Z.compare_spec ea eb), (Z.compare_spec eb ec),
         (Z.compare_spec ea ec); try lia; try done; cbn.
  all: destruct (Pos.compare_spec ma mb), (Pos.compare_spec mb mc),
         (Pos.compare_spec ma mc); try lia; try done.
Qed.

(** Floats that compare equal are the same, or are both zeros. *)
Lemma SFcompare_Eq a b :
  SFcompare a b = Some Eq ->
  a = b \/ exists sa sb, a = S754_zero sa /\ b = S754_zero sb.
Proof.
  destruct a as [sa|sa| |sa ma ea], b as [sb|sb| |sb mb eb]; cbn;
    try destruct sa; try destruct sb; try done; eauto.
  all: change (Pos.compare_cont Eq ?p ?q) with (p ?= q)%positive.
  all: destruct (Z.compare_spec ea eb); try done; cbn.
  all: destruct (Pos.compare_spec ma mb); try done; subst; eauto.
Qed.

Lemma nan_spec x : Prim2SF x = S754_nan <-> PrimFloat.is_nan x = true.
Proof.
  unfold Prim2SF. destruct (PrimFloat.is_nan x); [done|].
  destruct (PrimFloat.is_zero x); [done|].
  destruct (PrimFloat.is_infinity x); [done|].
  destruct (Z.frexp x) as [m e].
  destruct (shr_fexp _ _ _ _ _) as [shr e'].
  by destruct (shr_m shr).
Qed.

Lemma leb_not_nan x y :
  PrimFloat.leb x y = true -> Prim2SF x <> S754_nan /\ Prim2SF y <> S754_nan.
Proof.
  rewrite leb_spec. unfold SFleb.
  destruct (Prim2SF x) as [| | |], (Prim2SF y) as [| | |]; done.
Qed.

Lemma leb_trans x y z :
  PrimFloat.leb x y = true -> PrimFloat.leb y z = true -> PrimFloat.leb x z = true.
Proof. rewrite !leb_spec. apply SFleb_trans. Qed.

Lemma ltb_trans x y z :
  PrimFloat.ltb x y = true -> PrimFloat.ltb y z = true -> PrimFloat.ltb x z = true.
Proof. rewrite !ltb_spec. apply SFltb_trans. Qed.

(** A float is not a number, or at most zero, or above zero. *)
Lemma sign_cases s :
  PrimFloat.is_nan s = true \/ PrimFloat.leb s 0 = true \/ PrimFloat.ltb 0 s = true.
Proof.
  rewrite <- nan_spec, leb_spec, ltb_spec.
  change (Prim2SF 0) with (S754_zero false).
  destruct (Prim2SF s) as [ss|ss| |ss ms es]; try destruct ss; cbn; eauto.
Qed.

(** A step that is at most zero: the value does not grow. *)
Lemma add_down y step :
  PrimFloat.leb step 0 = true ->
  Prim2SF y <> S754_nan ->
  PrimFloat.is_nan (PrimFloat.add y step) = false ->
  PrimFloat.leb (PrimFloat.add y step) y = true.
Proof.
  intros Hs Hy Hn. rewrite leb_spec in *. rewrite add_spec.
  change (Prim2SF 0) with (S754_zero false) in Hs.
  destruct (SFadd_down (Prim2SF y) (Prim2SF step) (Prim2SF_valid y)
              (Prim2SF_valid step) Hs Hy) as [H|H]; [|done].
  rewrite <- add_spec in H. apply nan_spec in H. congruence.
Qed.

(** A step that is above zero: the value grows, or stays as it is. *)
Lemma add_up y step :
  PrimFloat.ltb 0 step = true ->
  Prim2SF y <> S754_nan ->
  PrimFloat.is_nan (PrimFloat.add y step) = false ->
  PrimFloat.add y step = y \/ PrimFloat.ltb y (PrimFloat.add y step) = true.
Proof.
  intros Hs Hy Hn. rewrite ltb_spec in *.
  change (Prim2SF 0) with (S754_zero false) in Hs.
  assert (Hs' := SFltb_leb _ _ Hs).
  destruct (SFadd_up (Prim2SF y) (Prim2SF step) (Prim2SF_valid y)
              (Prim2SF_valid step) Hs' Hy) as [H|H].
  { rewrite <- add_spec in H. apply nan_spec in H. congruence. }
  rewrite add_spec. unfold SFleb, SFltb in *.
  destruct (SFcompare (Prim2SF y) (SF64add (Prim2SF y) (Prim2SF step)))
    as [[| |]|] eqn:E; try done; [|by right].
  left. apply SFcompare_Eq in E as [E|(sa & sb & Ea & Eb)].
  - apply Prim2SF_inj. by rewrite add_spec.
  - exfalso. rewrite Ea in Eb.
    destruct (Prim2SF step) as [ss|ss| |ss ms es]; try destruct ss;
      try destruct sa; done.
Qed.

(** With a step that is at most zero the sum is not a number only for
    [+inf] and [-inf]; after one step that case is past. *)
Lemma add_down_again y step :
  PrimFloat.leb step 0 = true ->
  Prim2SF y <> S754_nan ->
  PrimFloat.is_nan (PrimFloat.add y step) = false ->
  PrimFloat.is_nan (PrimFloat.add (PrimFloat.add y step) step) = false.
Proof.
  intros Hs Hy Hn. rewrite leb_spec in Hs.
  change (Prim2SF 0) with (S754_zero false) in Hs.
  destruct (PrimFloat.is_nan (PrimFloat.add (PrimFloat.add y step) step)) eqn:E;
    [exfalso|done].
  apply nan_spec in E. rewrite add_spec in E.
  assert (Hn' : Prim2SF (PrimFloat.add y step) <> S754_nan).
  { intros H. apply nan_spec in H. congruence. }
  assert (V := Prim2SF_valid (PrimFloat.add y step)).
  rewrite add_spec in *.
  assert (Vs := Prim2SF_valid step). assert (Vy := Prim2SF_valid y).
  destruct (Prim2SF step) as [ss|ss| |ss ms es]; try done.
  - destruct (SF64add (Prim2SF y) (S754_zero ss)) as [sa|sa| |sa ma ea];
      try done. by destruct sa, ss.
  - destruct ss; [|done].
    destruct (Prim2SF y) as [sy|sy| |sy my ey]; try done. by destruct sy.
  - destruct (SF64add (Prim2SF y) (S754_finite ss ms es)) as [sa|sa| |sa ma ea]
      eqn:Ea; try done.
    by apply SFadd_finite_not_nan in E.
Qed.

End OrderFacts.
Import OrderFacts.

(** ** The loop: steps that never leave it, and increasing values *)

Module LoopFacts.
Lemma sweep_values_cons fuel stop step y v vs :
  sweep_values fuel stop step y = Some (v :: vs) ->
  v = y /\ PrimFloat.leb y stop = true /\
  exists fuel', fuel = S fuel' /\
    sweep_values fuel' stop step (PrimFloat.add y step) = Some vs.
Proof.
  destruct fuel as [|fuel]; cbn; destruct (PrimFloat.leb y stop); try done.
  destruct (sweep_values fuel stop step (PrimFloat.add y step)) as [vs'|] eqn:E;
    [|done].
  cbn. intros [= <- <-]. split; [done|]. split; [done|]. by exists fuel.
Qed.

(** A step that is at most zero never leaves the loop, once in it. *)
Lemma sweep_values_down stop step :
  PrimFloat.leb step 0 = true ->
  forall fuel y,
    PrimFloat.leb y stop = true ->
    PrimFloat.is_nan (PrimFloat.add y step) = false ->
    sweep_values fuel stop step y = None.
Proof.
  intros Hs. induction fuel as [|fuel IH]; intros y Hy Hn; cbn; rewrite Hy; [done|].
  destruct (leb_not_nan _ _ Hy) as [Hy' _].
  rewrite IH; [done| |].
  - eapply leb_trans; [|exact Hy]. by apply add_down.
  - by apply add_down_again.
Qed.

(** A value that the step does not change is never left. *)
Lemma sweep_values_stuck stop step y :
  PrimFloat.add y step = y -> PrimFloat.leb y stop = true ->
  forall fuel, sweep_values fuel stop step y = None.
Proof.
  intros E Hy. induction fuel as [|fuel IH]; cbn; rewrite Hy; [done|].
  by rewrite E, IH.
Qed.

Lemma sweep_values_up stop step :
  PrimFloat.ltb 0 step = true ->
  forall fuel y vs,
    sweep_values fuel stop step y = Some vs ->
    increasing vs /\
    forall j b, vs !! j = Some b -> (j = 0%nat /\ b = y) \/ PrimFloat.ltb y b = true.
Proof.
  intros Hs. induction fuel as [|fuel IH]; intros y vs H.
  - cbn in H. destruct (PrimFloat.leb y stop); [done|]. injection H as <-.
    split; [|done]. by intros i j a b _ Hi.
  - destruct vs as [|v vs].
    { split; [|done]. by intros i j a b _ Hi. }
    assert (H0 := H).
    apply sweep_values_cons in H as (-> & Hy & fuel' & [= <-] & Hvs).
    destruct (IH _ _ Hvs) as [Hinc Hhead].
    assert (Hlt : forall b, vs !! 0%nat = Some b ->
                    PrimFloat.ltb y (PrimFloat.add y step) = true).
    { intros b Hb. destruct vs as [|v vs]; [done|].
      apply sweep_values_cons in Hvs as (_ & Hy1 & _).
      destruct (leb_not_nan _ _ Hy) as [Hy' _].
      destruct (leb_not_nan _ _ Hy1) as [Hn _].
      assert (Hn' : PrimFloat.is_nan (PrimFloat.add y step) = false).
      { destruct (PrimFloat.is_nan (PrimFloat.add y step)) eqn:E; [|done].
        by apply nan_spec in E. }
      destruct (add_up y step Hs Hy' Hn') as [E|E]; [|done].
      by rewrite (sweep_values_stuck stop step y E Hy) in H0. }
    assert (Hall : forall j b, vs !! j = Some b -> PrimFloat.ltb y b = true).
    { intros j b Hb.
      assert (H1 : PrimFloat.ltb y (PrimFloat.add y step) = true).
      { destruct vs as [|v vs]; [done|]. by apply (Hlt v). }
      destruct (Hhead j b Hb) as [[_ ->]|H2]; [done|].
      by apply (ltb_trans _ _ _ H1). }
    split.
    + intros [|i] [|j] a b Hij Ha Hb; try lia; cbn in Ha, Hb.
      * injection Ha as <-. by apply (Hall j).
      * apply (Hinc i j); [lia|done|done].
    + intros [|j] b Hb; cbn in Hb.
      * left. by injection Hb as <-.
      * right. by apply (Hall j).
Qed.

(** With a step that is not above zero a sweep that ends has made one
    turn at most. *)
Lemma sweep_values_short fuel stop step y vs :
  PrimFloat.is_nan step = true \/ PrimFloat.leb step 0 = true ->
  sweep_values fuel stop step y = Some vs ->
  (length vs <= 1)%nat.
Proof.
  intros Hs H. destruct vs as [|v [|w vs]]; cbn; try lia. exfalso.
  assert (H0 := H).
  apply sweep_values_cons in H as (-> & Hy & fuel' & -> & Hvs).
  apply sweep_values_cons in Hvs as (_ & Hy1 & _).
  destruct (leb_not_nan _ _ Hy1) as [Hn _].
  destruct Hs as [Hs|Hs].
  - apply Hn. rewrite add_spec. apply nan_spec in Hs. rewrite Hs.
    by destruct (Prim2SF y).
  - rewrite (sweep_values_down stop step Hs _ y Hy) in H0; [done|].
    destruct (PrimFloat.is_nan (PrimFloat.add y step)) eqn:E; [|done].
    by apply nan_spec in E.
Qed.

(** The values of a sweep that ends are in strictly increasing order. *)
Lemma sweep_values_increasing fuel stop step y vs :
  sweep_values fuel stop step y = Some vs -> increasing vs.
Proof.
  intros H. destruct (sign_cases step) as [Hs|[Hs|Hs]].
  - assert (L := sweep_values_short _ _ _ _ _ (or_introl Hs) H).
    intros i j a b Hij Ha Hb. apply lookup_lt_Some in Hb. lia.
  - assert (L := sweep_values_short _ _ _ _ _ (or_intror Hs) H).
    intros i j a b Hij Ha Hb. apply lookup_lt_Some in Hb. lia.
  - by destruct (sweep_values_up stop step Hs _ _ _ H).
Qed.

End LoopFacts.
Import LoopFacts.

(** ** The layout of a written line *)

Module LayoutFacts.
Lemma ljust_left w s : left_justified w s (ljust w s).
Proof.
  exists (replicate_char (w - String.length s) " "). unfold ljust.
  split; [done|]. split; [by apply all_chars_replicate|].
  rewrite length_app, length_replicate. lia.
Qed.

Lemma rjust_right w s : right_justified w s (rjust w s).
Proof.
  exists (replicate_char (w - String.length s) " "). unfold rjust.
  split; [done|]. split; [by apply all_chars_replicate|].
  rewrite length_app, length_replicate. lia.
Qed.

Lemma canonical_fixed_width sym x y z :
  fixed_width (canonical sym x y z) sym (format_f 8 x) (format_f 8 y) (format_f 8 z).
Proof.
  exists (ljust 2 sym), (coord x), (coord y), (coord z).
  split; [done|]. split; [apply ljust_left|].
  split; [apply rjust_right|]. split; apply rjust_right.
Qed.

Lemma length_substring s : forall n m,
  (n + m <= String.length s)%nat -> String.length (substring n m s) = m.
Proof.
  induction s as [|c s IH]; intros n m H; cbn in *.
  - by destruct n, m; cbn; try lia.
  - destruct n as [|n]; [destruct m as [|m]|]; cbn; [done| |].
    + rewrite IH; [done|lia].
    + apply IH. lia.
Qed.

Lemma point_decimals p digits :
  all_chars is_digit digits = true ->
  exists ip fp,
    point (S p) digits = ip +:+ "." +:+ fp /\
    ip <> EmptyString /\
    all_chars is_digit ip = true /\
    all_chars is_digit fp = true /\
    String.length fp = S p.
Proof.
  intros Hd. unfold point.
  set (s := replicate_char (S (S p) - String.length digits) "0" +:+ digits).
  assert (Hs : all_chars is_digit s = true).
  { unfold s. by rewrite all_chars_app, all_chars_replicate, Hd. }
  assert (Hl : (S (S p) <= String.length s)%nat).
  { unfold s. rewrite length_app, length_replicate. lia. }
  exists (substring 0 (String.length s - S p) s),
         (substring (String.length s - S p) (S p) s).
  split; [done|]. split; [|split; [|split]].
  - apply substring_nonempty; [lia|]. destruct s; [cbn in Hl; lia | done].
  - by apply all_chars_substring.
  - by apply all_chars_substring.
  - apply length_substring. lia.
Qed.

Lemma finite_shape (x : float) :
  PrimFloat.is_finite x = true ->
  (exists s, Prim2SF x = S754_zero s) \/ (exists s m e, Prim2SF x = S754_finite s m e).
Proof.
  unfold PrimFloat.is_finite, Prim2SF.
  destruct (PrimFloat.is_nan x); [done|].
  destruct (PrimFloat.is_infinity x); [done|]. intros _.
  destruct (PrimFloat.is_zero x); [eauto|].
  destruct (Z.frexp x) as [m e].
  destruct (shr_fexp _ _ _ _ _) as [shr e'].
  destruct (shr_m shr); eauto.
Qed.

(** A finite value is written with exactly [p] decimals. *)
Lemma format_f_decimals p x :
  PrimFloat.is_finite x = true -> has_decimals (S p) (format_f (S p) x).
Proof.
  intros [[s E]|(s & m & e & E)]%finite_shape; unfold format_f; rewrite E.
  - destruct (point_decimals p "0" eq_refl) as (ip & fp & -> & H).
    exists (if s then "-" else ""), ip, fp. split; [done|].
    split; [by destruct s; eauto|]. done.
  - destruct (point_decimals p _ (decimal_digits (Z.to_N (scaled (S p) m e))))
      as (ip & fp & -> & H).
    exists (if s then "-" else ""), ip, fp. split; [done|].
    split; [by destruct s; eauto|]. done.
Qed.

End LayoutFacts.
Import LayoutFacts.

(** ** Examples: the built-ins and one step, evaluated *)

Module Examples.

(** An equation between closed terms, settled by evaluating both sides. *)
Ltac by_computation :=
  lazymatch goal with
  | |- ?a = _ => vm_cast_no_check (@eq_refl _ a)
  end.

Example float_tenth : float_of_string "0.1" = Some step_increment.
Proof. by_computation. Qed.

Example float_sentinel : float_of_string "2.00000000" = Some sentinel.
Proof. by_computation. Qed.

Example float_two : float_of_string "2" = Some sentinel.
Proof. by_computation. Qed.

Example float_exponent : float_of_string "20e-1" = Some sentinel.
Proof. by_computation. Qed.

Example float_underscore : float_of_string "1_0.5" = Some 10.5%float.
Proof. by_computation. Qed.

Example float_infinity : float_of_string "-Infinity" = Some neg_infinity.
Proof. by_computation. Qed.

Example float_overflow : float_of_string "1e400" = Some infinity.
Proof. by_computation. Qed.

Example float_comma : float_of_string "1,5" = None.
Proof. by_computation. Qed.

Example float_empty : float_of_string EmptyString = None.
Proof. by_computation. Qed.

Example format_six : format_f 6 y_3_477 = "3.477000".
Proof. by_computation. Qed.

Example format_tie_even : format_f 1 0.25 = "0.2".
Proof. by_computation. Qed.

Example format_tie_binary : format_f 1 step_increment = "0.1".
Proof. by_computation. Qed.

Example format_negative_zero : format_f 6 (-0) = "-0.000000".
Proof. by_computation. Qed.

Example format_last_value :
  List.last literal_values 0%float = 0x1.ffffffffffff2p+2%float /\
  format_f 1 (List.last literal_values 0%float) = "8.0".
Proof. split; by_computation. Qed.

Example coord_width : coord 0.5 = "    0.50000000".
Proof. by_computation. Qed.

Example split_line : split hydrogen_line = ["H"; "1.00000000"; "0.50000000"; "0.00000000"].
Proof. by_computation. Qed.

Example readlines_sample : length (readlines sample_geometry) = 5.
Proof. by_computation. Qed.

(** The step of value 3.477 on the sample: the geometry file, and its
    copy. *)
Example step_files :
  let t := (sweep_step sample_header sample_atoms output_base_dir y_3_477 []
              sample_fs).2 in
  t !! ["output_xyz"; "3.5A"; "3.5A.xyz"] =
    Some (File (lines_text
                  ["3"; "sample";
                   "C      0.00000000     0.00000000     0.00000000";
                   "O      0.00000000     3.47700000     0.00000000";
                   "H      1.00000000     0.50000000     0.00000000"])) /\
  t !! ["output_xyz"; "3.5A"; "struc.xyz"] = t !! ["output_xyz"; "3.5A"; "3.5A.xyz"].
Proof. cbv zeta. split; by_computation. Qed.

(** The script, from the input file alone: the output root is made and
    the sweep completes. *)
Example script_completes :
  (script 66 (<[input_xyz := File sample_geometry]> ∅)).1 = Done tt.
Proof. by_computation. Qed.

End Examples.

(** ** The claims *)

Module Claims.
Import Examples.

(** C1, the example as the claim words it: for the atom line
    [O 0.00000000 2.00000000 0.00000000] and the sweep value 3.477 the
    generator produces the symbol, six spaces, the first coordinate, and
    five spaces before each further coordinate. The line of the claim,
    with four spaces at each place, is not what it produces. *)
Lemma C1_counterexample :
  float_of_string "3.477" = Some y_3_477 /\
  modified_atom y_3_477 "O 0.00000000 2.00000000 0.00000000"
    = Ok "O      0.00000000     3.47700000     0.00000000" /\
  modified_atom y_3_477 "O 0.00000000 2.00000000 0.00000000"
    <> Ok "O    0.00000000    3.47700000    0.00000000".
Proof.
  split; [vm_compute; reflexivity|].
  assert (H : modified_atom y_3_477 "O 0.00000000 2.00000000 0.00000000"
              = Ok "O      0.00000000     3.47700000     0.00000000")
    by (vm_compute; reflexivity).
  split; [exact H|]. rewrite H. discriminate.
Qed.

(** C1, amended: in every sweep step that completes, an atom line whose
    first token is ["O"] and whose third token reads as a float equal to
    2.0 appears in that step's geometry file in the canonical layout, with
    its first and third coordinates as read from the line and its second
    coordinate the sweep value formatted to 6 decimals and read back
    (which never fails). For the line [O 0.00000000 2.00000000 0.00000000]
    and the sweep value 3.477 the output line is
    [O      0.00000000     3.47700000     0.00000000]. *)
Theorem C1_selected_atom h a out y dirs s D t i atom tok y0 :
  sweep_step h a out y dirs s = (Done D, t) ->
  a !! i = Some atom ->
  split atom !! 0%nat = Some "O" ->
  split atom !! 2%nat = Some tok ->
  float_of_string tok = Some y0 ->
  PrimFloat.eqb y0 sentinel = true ->
  (exists modified tx tz x y' z,
     t !! increment_file out y = Some (File (xyz_text h modified)) /\
     split atom !! 1%nat = Some tx /\ float_of_string tx = Some x /\
     float_of_string (format_f 6 y) = Some y' /\
     split atom !! 3%nat = Some tz /\ float_of_string tz = Some z /\
     modified !! i = Some (canonical "O" x y' z)) /\
  modified_atom y_3_477 "O 0.00000000 2.00000000 0.00000000"
    = Ok "O      0.00000000     3.47700000     0.00000000".
Proof.
  intros Hstep Hi H0 H2 Hf He. split; [|vm_compute; reflexivity].
  apply sweep_step_files in Hstep as (modified & Hm & Hfile & _).
  destruct (modified_atoms_lookup _ _ _ _ _ Hm Hi) as (line & Hl & Hline).
  rewrite (modified_atom_selected y atom) in Hline
    by (eapply selected_true; eauto).
  apply formatted_atom_ok in Hline
    as (sym & tx & ty & tz & x & y' & z & P0 & P1 & F1 & P2 & F2 & P3 & F3 & ->).
  assert (Hlen : (2 < length (split atom))%nat) by (eapply lookup_lt_Some; eauto).
  rewrite list_lookup_insert_ne in P0, P1, P3 by done.
  rewrite list_lookup_insert_eq in P2 by done.
  injection P2 as <-. rewrite H0 in P0. injection P0 as <-.
  exists modified, tx, tz, x, y', z. done.
Qed.

(** C1 at the step of value 3.477 on the sample file system, for the
    oxygen line of the sample geometry. *)
Lemma C1_witness :
  (exists modified tx tz x y' z,
     (sweep_step sample_header sample_atoms output_base_dir y_3_477 [] sample_fs).2
       !! increment_file output_base_dir y_3_477
       = Some (File (xyz_text sample_header modified)) /\
     split oxygen_line !! 1%nat = Some tx /\
     float_of_string tx = Some x /\
     float_of_string (format_f 6 y_3_477) = Some y' /\
     split oxygen_line !! 3%nat = Some tz /\
     float_of_string tz = Some z /\
     modified !! 1%nat = Some (canonical "O" x y' z)) /\
  modified_atom y_3_477 "O 0.00000000 2.00000000 0.00000000"
    = Ok "O      0.00000000     3.47700000     0.00000000".
Proof.
  refine (C1_selected_atom sample_header sample_atoms output_base_dir y_3_477 []
            sample_fs [increment_dir output_base_dir y_3_477]
            (sweep_step sample_header sample_atoms output_base_dir y_3_477 []
               sample_fs).2
            1%nat oxygen_line "2.00000000" 2%float _ _ _ _ _ _);
    by_computation.
Defined.

(** C2, as the claim words it: the coordinate values of a line that is
    not selected are not left unchanged. The hydrogen line reads 1e-9 in
    its first coordinate and is written with [0.00000000] there, which
    reads 0; the oxygen line reads a second coordinate that is not 2.0,
    so it is not selected, and is written with [2.00000000], which reads
    2.0. *)
Lemma C2_counterexample :
  let atoms := drop 2 (readlines fine_geometry) in
  let t := (sweep_step (take 2 (readlines fine_geometry)) atoms output_base_dir
              y_3_477 [] sample_fs).2 in
  atoms = ["H 0.000000001 0.0 0.0" +:+ NL; "O 0.0 2.000000001 0.0" +:+ NL] /\
  float_of_string "0.000000001" = Some nano /\
  float_of_string "2.000000001" = Some above_two /\
  PrimFloat.eqb above_two sentinel = false /\
  t !! increment_file output_base_dir y_3_477
    = Some (File (lines_text
                    ["2"; "fine";
                     "H      0.00000000     0.00000000     0.00000000";
                     "O      0.00000000     2.00000000     0.00000000"])) /\
  float_of_string "0.00000000" = Some 0%float /\
  PrimFloat.eqb nano 0 = false /\
  float_of_string "2.00000000" = Some sentinel.
Proof. cbv zeta. repeat split; by_computation. Qed.

(** C2, amended: in every sweep step that completes, an atom line whose
    symbol is not ["O"], or whose second coordinate reads as a float
    different from 2.0, appears in that step's geometry file with its
    own symbol and its own three coordinates, each one the value read
    from the line rendered with 8 decimals (so rounded there, not kept
    beyond): the written line splits into exactly these four tokens. Its
    layout is the symbol left-justified in 2 characters and each
    coordinate right-justified in 14 characters, single spaces between,
    and a finite coordinate has exactly 8 digits after the point. The
    sweep value has no part in it: the line is the same in every step. *)
Theorem C2_other_atoms h a out y dirs s D t i atom sym :
  sweep_step h a out y dirs s = (Done D, t) ->
  a !! i = Some atom ->
  split atom !! 0%nat = Some sym ->
  (sym <> "O" \/
   exists tok y0, split atom !! 2%nat = Some tok /\
                  float_of_string tok = Some y0 /\
                  PrimFloat.eqb y0 sentinel = false) ->
  exists modified line tx ty tz x y0 z,
    t !! increment_file out y = Some (File (xyz_text h modified)) /\
    modified !! i = Some line /\
    split atom !! 1%nat = Some tx /\ float_of_string tx = Some x /\
    split atom !! 2%nat = Some ty /\ float_of_string ty = Some y0 /\
    split atom !! 3%nat = Some tz /\ float_of_string tz = Some z /\
    split line = [sym; format_f 8 x; format_f 8 y0; format_f 8 z] /\
    fixed_width line sym (format_f 8 x) (format_f 8 y0) (format_f 8 z) /\
    (forall v, v ∈ [x; y0; z] -> PrimFloat.is_finite v = true ->
               has_decimals 8 (format_f 8 v)) /\
    (forall y', modified_atom y' atom = Ok line).
Proof.
  intros Hstep Hi H0 Hsel.
  apply sweep_step_files in Hstep as (modified & Hm & Hfile & _).
  destruct (modified_atoms_lookup _ _ _ _ _ Hm Hi) as (line & Hl & Hline).
  assert (Hns : selected (split atom) = Ok false) by (eapply selected_false; eauto).
  rewrite (modified_atom_unselected y atom Hns) in Hline.
  assert (Hall : forall y', modified_atom y' atom = Ok line).
  { intros y'. by rewrite (modified_atom_unselected y' atom Hns). }
  apply formatted_atom_ok in Hline
    as (sym' & tx & ty & tz & x & y0 & z & P0 & P1 & F1 & P2 & F2 & P3 & F3 & ->).
  rewrite H0 in P0. injection P0 as <-.
  assert (Hs : token sym).
  { eapply (proj1 (Forall_lookup _ _) (split_tokens atom)). exact H0. }
  exists modified, (canonical sym x y0 z), tx, ty, tz, x, y0, z.
  repeat (split; [done|]).
  split; [|split; [|split; [|done]]].
  - apply split_canonical; [done|apply format_f_token..].
  - apply canonical_fixed_width.
  - intros v _ Hv. by apply format_f_decimals.
Qed.

(** C2 at the step of value 3.477 on the sample file system, for the
    hydrogen line of the sample geometry. *)
Lemma C2_witness :
  exists modified line tx ty tz x y0 z,
    (sweep_step sample_header sample_atoms output_base_dir y_3_477 [] sample_fs).2
      !! increment_file output_base_dir y_3_477
      = Some (File (xyz_text sample_header modified)) /\
    modified !! 2%nat = Some line /\
    split hydrogen_line !! 1%nat = Some tx /\ float_of_string tx = Some x /\
    split hydrogen_line !! 2%nat = Some ty /\ float_of_string ty = Some y0 /\
    split hydrogen_line !! 3%nat = Some tz /\ float_of_string tz = Some z /\
    split line = ["H"; format_f 8 x; format_f 8 y0; format_f 8 z] /\
    fixed_width line "H" (format_f 8 x) (format_f 8 y0) (format_f 8 z) /\
    (forall v, v ∈ [x; y0; z] -> PrimFloat.is_finite v = true ->
               has_decimals 8 (format_f 8 v)) /\
    (forall y', modified_atom y' hydrogen_line = Ok line).
Proof.
  refine (C2_other_atoms sample_header sample_atoms output_base_dir y_3_477 []
            sample_fs [increment_dir output_base_dir y_3_477]
            (sweep_step sample_header sample_atoms output_base_dir y_3_477 []
               sample_fs).2
            2%nat hydrogen_line "H" _ _ _ _);
    [by_computation .. | left; discriminate].
Defined.

(** C3: with start 1.5, stop 8.0 and step 0.1 the loop makes exactly 66
    turns: 66 units of fuel are enough and 65 are not. The directory
    names of the turns are ["1.5A"], ["1.6A"], ..., ["8.0A"], all
    different. The float quotient [(stop - start) / step] is 65, so 66 is
    [floor((stop - start) / step) + 1]. The run on the sample file system
    completes, and every run that completes lists these 66 names in its
    manifest and leaves the 66 directories. *)
Theorem C3_literal_sweep :
  (forall fuel,
     sweep_values fuel stop_increment step_increment start_increment =
     if (66 <=? fuel)%nat then Some literal_values else None) /\
  length literal_values = 66%nat /\
  map dir_name literal_values = expected_names /\
  head expected_names = Some "1.5A" /\
  last expected_names = Some "8.0A" /\
  NoDup expected_names /\
  PrimFloat.div (PrimFloat.sub stop_increment start_increment) step_increment
    = 65%float /\
  (increment_and_write_xyz 66 input_xyz output_base_dir
     start_increment stop_increment step_increment sample_fs).1 = Done tt /\
  (forall fuel inp out s t,
     increment_and_write_xyz fuel inp out
       start_increment stop_increment step_increment s = (Done tt, t) ->
     t !! manifest out = Some (File (lines_text expected_names)) /\
     Forall (fun n => is_dir t (child out n) = true) expected_names).
Proof.
  assert (E : sweep_values 66 stop_increment step_increment start_increment
              = Some literal_values) by by_computation.
  assert (L : length literal_values = 66%nat) by by_computation.
  assert (N : map dir_name literal_values = expected_names) by by_computation.
  assert (A : forall fuel,
             sweep_values fuel stop_increment step_increment start_increment =
             if (66 <=? fuel)%nat then Some literal_values else None).
  { intros fuel. destruct (Nat.leb_spec 66 fuel) as [Hge|Hlt].
    - replace fuel with (66 + (fuel - 66))%nat by lia.
      by apply sweep_values_more.
    - destruct (sweep_values fuel _ _ _) as [vs|] eqn:Ev; [|done].
      destruct (sweep_values_more _ _ _ _ _ (66 - fuel)%nat Ev) as [Ev' Hl].
      replace (fuel + (66 - fuel))%nat with 66%nat in Ev' by lia.
      rewrite E in Ev'. injection Ev' as <-. lia. }
  split; [exact A|]. split; [exact L|]. split; [exact N|].
  split; [by_computation|]. split; [by_computation|].
  split; [apply (bool_decide_unpack _); vm_cast_no_check I|].
  split; [by_computation|]. split; [by_computation|].
  intros fuel inp out s t H.
  {
    apply generator_done in H as (vs & Hv & Hm & Hd).
    rewrite A in Hv. destruct (66 <=? fuel)%nat; [|discriminate].
    injection Hv as <-. split.
    + rewrite Hm, <- N. unfold lines_text. by rewrite map_map.
    + rewrite <- N. by apply Forall_map. }
Qed.

(** C4: a run on a file system where [struc.xyz] is already a directory
    in the step's directory. The call completes; [struc.xyz] is still a
    directory, not a file with the bytes of the geometry file, and the
    copy lies inside it under the name of the geometry file. *)
Theorem C4_copy_into_directory :
  let r := increment_and_write_xyz 1 input_xyz output_base_dir 1 1 1
             occupied_fs in
  occupied_fs !! struc_file output_base_dir 1 = Some Dir /\
  r.1 = Done tt /\
  r.2 !! increment_file output_base_dir 1
    = Some (File (lines_text
                    ["3"; "sample";
                     "C      0.00000000     0.00000000     0.00000000";
                     "O      0.00000000     1.00000000     0.00000000";
                     "H      1.00000000     0.50000000     0.00000000"])) /\
  r.2 !! struc_file output_base_dir 1 = Some Dir /\
  r.2 !! child (struc_file output_base_dir 1) "1.0A.xyz"
    = r.2 !! increment_file output_base_dir 1.
Proof. cbv zeta. repeat split; by_computation. Qed.

(** C5, as the claim words it: with start 1.5, stop 1.5625 and step
    0.03125 the first two sweep values share the name ["1.5A"]; the run
    completes and the manifest lists that directory twice. *)
Lemma C5_counterexample :
  let r := increment_and_write_xyz 3 input_xyz output_base_dir
             1.5 1.5625 0.03125 sample_fs in
  r.1 = Done tt /\
  r.2 !! manifest output_base_dir = Some (File (lines_text ["1.5A"; "1.5A"; "1.6A"])).
Proof. cbv zeta. split; by_computation. Qed.

(** C5, amended: a run that completes writes a manifest with exactly one
    line per sweep step, in the order of the steps (the order in which
    the directories were made), which is the strictly increasing order of
    the sweep values; each line is the bare name of the step's directory:
    not empty, without path separator or line break. Every listed
    directory exists. A directory is listed once for each step that has
    its name, hence exactly once when no two sweep values share a name. *)
Theorem C5_manifest_lines fuel inp out start stop step s t :
  increment_and_write_xyz fuel inp out start stop step s = (Done tt, t) ->
  exists vs,
    sweep_values fuel stop step start = Some vs /\
    increasing vs /\
    t !! manifest out = Some (File (lines_text (map dir_name vs))) /\
    Forall (fun v => is_dir t (child out (dir_name v)) = true /\
                     dir_name v <> EmptyString /\
                     all_chars plain_char (dir_name v) = true) vs.
Proof.
  intros H. apply generator_done in H as (vs & Hv & Hm & Hd).
  exists vs. split; [exact Hv|].
  split; [by apply (sweep_values_increasing _ _ _ _ _ Hv)|]. split.
  - rewrite Hm. unfold lines_text. by rewrite map_map.
  - eapply Forall_impl; [exact Hd|]. cbn. intros v Hdir.
    split; [exact Hdir|]. split; [apply dir_name_nonempty|].
    eapply all_chars_impl, dir_name_chars.
    intros [[] [] [] [] [] [] [] []]; (discriminate || reflexivity).
Qed.

(** C5 on the run of the counterexample. *)
Lemma C5_witness :
  exists vs,
    sweep_values 3 1.5625 0.03125 1.5 = Some vs /\
    increasing vs /\
    (increment_and_write_xyz 3 input_xyz output_base_dir
       1.5 1.5625 0.03125 sample_fs).2 !! manifest output_base_dir
      = Some (File (lines_text (map dir_name vs))) /\
    Forall (fun v =>
              is_dir (increment_and_write_xyz 3 input_xyz output_base_dir
                        1.5 1.5625 0.03125 sample_fs).2
                     (child output_base_dir (dir_name v)) = true /\
              dir_name v <> EmptyString /\
              all_chars plain_char (dir_name v) = true) vs.
Proof.
  refine (C5_manifest_lines 3 input_xyz output_base_dir 1.5 1.5625 0.03125
            sample_fs
            (increment_and_write_xyz 3 input_xyz output_base_dir
               1.5 1.5625 0.03125 sample_fs).2 _).
  by_computation.
Defined.

(** C6, as the claim words it: a call with step -0.5 (and start 2.0
    above stop 1.0) is not rejected: it completes normally. *)
Lemma C6_counterexample :
  PrimFloat.leb (-0.5) 0 = true /\
  (increment_and_write_xyz 0 input_xyz output_base_dir 2 1 (-0.5) sample_fs).1
    = Done tt.
Proof. split; by_computation. Qed.

(** C6, amended: the generator never inspects the step. When start is
    above stop it does, for any step, what it does for an empty sweep:
    it reads the input and writes an empty manifest. When the step is at
    most zero (zero, negative, or minus infinity) and start is not above
    stop, the loop condition holds at every turn, so the call never
    completes normally, whatever the fuel; the one exception is a first
    sum start + step that is not a number (start plus infinity and step
    minus infinity), where the loop makes exactly one turn. *)
Theorem C6_step_not_checked fuel inp out start stop step s :
  (PrimFloat.ltb stop start = true ->
   increment_and_write_xyz fuel inp out start stop step s =
   bind (read_text inp) (fun _ => write_text (manifest out) EmptyString) s) /\
  (PrimFloat.leb step 0 = true -> PrimFloat.leb start stop = true ->
   PrimFloat.is_nan (PrimFloat.add start step) = false ->
   (increment_and_write_xyz fuel inp out start stop step s).1 <> Done tt) /\
  (PrimFloat.leb step 0 = true -> PrimFloat.leb start stop = true ->
   PrimFloat.is_nan (PrimFloat.add start step) = true ->
   sweep_values (S fuel) stop step start = Some [start]).
Proof.
  split; [|split].
  - intros Hlt. apply no_turn. by apply ltb_not_leb.
  - intros Hs Hle Hn Hdone.
    destruct (increment_and_write_xyz fuel inp out start stop step s)
      as [o t] eqn:E.
    cbn in Hdone. subst o.
    apply generator_done in E as (vs & Hv & _).
    by rewrite (sweep_values_down stop step Hs fuel start Hle Hn) in Hv.
  - intros Hs Hle Hn. cbn. rewrite Hle.
    assert (Hgt : PrimFloat.leb (PrimFloat.add start step) stop = false).
    { destruct (PrimFloat.leb (PrimFloat.add start step) stop) eqn:E; [|done].
      apply leb_not_nan in E as [E _]. by apply nan_spec in Hn. }
    destruct fuel; cbn; by rewrite Hgt.
Qed.

(** C6 on the sample file system: a negative step with start above stop,
    a negative and a zero step with start below stop, and the sum that
    is not a number. *)
Lemma C6_witness :
  increment_and_write_xyz 5 input_xyz output_base_dir 2 1 (-0.5) sample_fs =
    bind (read_text input_xyz)
         (fun _ => write_text (manifest output_base_dir) EmptyString) sample_fs /\
  (increment_and_write_xyz 5 input_xyz output_base_dir 1 2 (-0.5) sample_fs).1
    <> Done tt /\
  (increment_and_write_xyz 5 input_xyz output_base_dir 1 2 0 sample_fs).1
    <> Done tt /\
  sweep_values 6 infinity neg_infinity infinity = Some [infinity].
Proof.
  split; [|split; [|split]].
  - refine (proj1 (C6_step_not_checked 5 input_xyz output_base_dir 2 1 (-0.5)
                     sample_fs) _).
    by_computation.
  - refine (proj1 (proj2 (C6_step_not_checked 5 input_xyz output_base_dir 1 2
                            (-0.5) sample_fs)) _ _ _); by_computation.
  - refine (proj1 (proj2 (C6_step_not_checked 5 input_xyz output_base_dir 1 2
                            0 sample_fs)) _ _ _); by_computation.
  - refine (proj2 (proj2 (C6_step_not_checked 5 input_xyz output_base_dir
                            infinity infinity neg_infinity sample_fs)) _ _ _);
      by_computation.
Defined.

(** C7, as the claim words it: with start 2.0 above stop 1.0 a geometry
    with a malformed atom line raises nothing; the run completes and
    writes the manifest, which was not there before. *)
Lemma C7_counterexample :
  let s := <[input_xyz := File malformed_geometry]> sample_fs in
  let r := increment_and_write_xyz 0 input_xyz output_base_dir 2 1 0.5 s in
  In malformed_line (drop 2 (readlines malformed_geometry)) /\
  well_formed malformed_line = false /\
  r.1 = Done tt /\
  s !! manifest output_base_dir = None /\
  r.2 !! manifest output_base_dir = Some (File EmptyString).
Proof.
  cbv zeta. split; [left; by_computation|]. split; [by_computation|].
  split; [by_computation|]. split; by_computation.
Qed.

(** C7, amended: when the sweep has at least one step (start is not
    above stop) and an atom line has fewer than 4 tokens or a coordinate
    token that is not a number, the generator raises [IndexError] or
    [ValueError] in the first step, and the file system is as it was: no
    directory and no file has been written. *)
Theorem C7_malformed_line fuel inp out start stop step s content atom :
  node_at s inp = Some (File content) ->
  In atom (drop 2 (readlines content)) ->
  well_formed atom = false ->
  PrimFloat.leb start stop = true ->
  exists e,
    parse_error e /\
    increment_and_write_xyz (S fuel) inp out start stop step s = (Raised e, s).
Proof.
  intros Hin Hatom Hw Hle.
  destruct (modified_atoms_malformed start _ _ Hatom Hw) as (e & He & Hm).
  exists e. split; [exact He|].
  unfold increment_and_write_xyz. unfold bind at 1. unfold read_text.
  rewrite Hin. unfold bind at 1. cbn [sweep]. rewrite Hle.
  unfold bind at 1. unfold sweep_step. rewrite Hm. reflexivity.
Qed.

(** C7 on the malformed sample geometry, with one unit of fuel. *)
Lemma C7_witness :
  exists e,
    parse_error e /\
    increment_and_write_xyz 1 input_xyz output_base_dir 1 2 0.5
      (<[input_xyz := File malformed_geometry]> sample_fs)
    = (Raised e, <[input_xyz := File malformed_geometry]> sample_fs).
Proof.
  refine (C7_malformed_line 0 input_xyz output_base_dir 1 2 0.5
            (<[input_xyz := File malformed_geometry]> sample_fs)
            malformed_geometry malformed_line _ _ _ _);
    [by_computation | left; by_computation | by_computation | by_computation].
Defined.

(** C8: when a run completes and the input file holds the same text
    afterwards, a second run with the same arguments on the file system
    the first one left completes too and leaves every path as it was:
    each file it writes gets the bytes it already had. Making a
    directory that exists is not an error and changes nothing. *)
Theorem C8_rerun_identical fuel inp out start stop step s t :
  increment_and_write_xyz fuel inp out start stop step s = (Done tt, t) ->
  node_at t inp = node_at s inp ->
  increment_and_write_xyz fuel inp out start stop step t = (Done tt, t) /\
  forall d, is_dir t d = true -> mkdir true true d t = (Done tt, t).
Proof.
  intros H Hin. split.
  2:{ intros d Hd. apply path_mkdir_exists. unfold is_dir in Hd.
      by destruct (node_at t d) as [[|]|]. }
  revert H Hin. unfold increment_and_write_xyz. intros H Hin.
  unfold bind at 1 in H. unfold read_text in H at 1.
  unfold bind at 1. unfold read_text at 1. rewrite Hin.
  destruct (node_at s inp) as [[|content]|]; try discriminate H.
  set (h := take 2 (readlines content)) in *.
  set (a := drop 2 (readlines content)) in *.
  unfold bind at 1 in H.
  destruct (sweep fuel h a out stop step start [] s) as [[D| |] s1] eqn:E;
    try discriminate H.
  assert (Hw := H). apply write_text_done in Hw as (Et & Hpar & Hnd).
  assert (G : grows s1 t).
  { rewrite Et. by apply insert_file_grows. }
  assert (Hf : follows t s t) by (intros q; by left).
  destruct (follows_sweep t _ _ _ _ _ _ _ _ _ t _ _ E G Hf) as (t' & E' & Hf').
  unfold bind at 1. rewrite E'.
  destruct (follows_write t (manifest out) (manifest_text D) s1 t' t
              (child_nonempty _ _) H (grows_refl t) Hf') as [Hw' Hf''].
  rewrite Hw'. f_equal. apply map_eq. intros q.
  destruct (Hf'' q) as [?|[? _]]; done.
Qed.

(** C8 on the sample file system, for a sweep of three steps. *)
Lemma C8_witness :
  increment_and_write_xyz 3 input_xyz output_base_dir 1 2 0.5
    (increment_and_write_xyz 3 input_xyz output_base_dir 1 2 0.5 sample_fs).2
  = (Done tt,
     (increment_and_write_xyz 3 input_xyz output_base_dir 1 2 0.5 sample_fs).2) /\
  forall d,
    is_dir (increment_and_write_xyz 3 input_xyz output_base_dir 1 2 0.5
              sample_fs).2 d = true ->
    mkdir true true d
      (increment_and_write_xyz 3 input_xyz output_base_dir 1 2 0.5 sample_fs).2
    = (Done tt,
       (increment_and_write_xyz 3 input_xyz output_base_dir 1 2 0.5 sample_fs).2).
Proof.
  refine (C8_rerun_identical 3 input_xyz output_base_dir 1 2 0.5 sample_fs
            (increment_and_write_xyz 3 input_xyz output_base_dir 1 2 0.5
               sample_fs).2 _ _);
    by_computation.
Defined.

(** C9: when [k] steps complete and the next one raises, the generator
    raises that exception (given more than [k] units of fuel) and stops
    there: the manifest path holds what it held before the run, the [k]
    directories recorded so far all exist, and nothing records them. *)
Theorem C9_failure_no_manifest fuel inp out start stop step s content k st e t :
  node_at s inp = Some (File content) ->
  iterates (take 2 (readlines content)) (drop 2 (readlines content)) out
    stop step k
    {| current_y := start; all_directories := []; files := s |} st ->
  PrimFloat.leb (current_y st) stop = true ->
  sweep_step (take 2 (readlines content)) (drop 2 (readlines content)) out
    (current_y st) (all_directories st) (files st) = (Raised e, t) ->
  increment_and_write_xyz (k + S fuel) inp out start stop step s = (Raised e, t) /\
  t !! manifest out = s !! manifest out /\
  length (all_directories st) = k /\
  Forall (fun d => is_dir t d = true) (all_directories st).
Proof.
  intros Hin Hit Hle Hstep.
  set (h := take 2 (readlines content)) in *.
  set (a := drop 2 (readlines content)) in *.
  destruct (iterates_facts _ _ _ _ _ _ _ _ Hit)
    as (G & Hm & new & Hd & Hl & Hall). cbn in G, Hm, Hd.
  assert (G1 := sweep_step_grows h a out (current_y st) (all_directories st)
                  (files st)).
  assert (M1 := sweep_step_manifest h a out (current_y st) (all_directories st)
                  (files st)).
  rewrite Hstep in G1, M1. cbn in G1, M1.
  split; [|split; [congruence|split]].
  - unfold increment_and_write_xyz. unfold bind at 1. unfold read_text.
    rewrite Hin. fold h a. unfold bind at 1.
    assert (X := iterates_sweep _ _ _ _ _ _ _ _ Hit (S fuel)).
    cbn [current_y all_directories files] in X. rewrite X.
    cbn [sweep]. rewrite Hle. unfold bind at 1. by rewrite Hstep.
  - by rewrite Hd.
  - rewrite Hd. eapply Forall_impl; [exact Hall|]. cbn. intros d Hdir.
    by eapply is_dir_grows.
Qed.

(** C9 on a file system where a regular file sits at the place of the
    second step's directory: the first step completes, the second raises
    [FileExistsError]. *)
Lemma C9_witness :
  let st := {| current_y := 1.5;
               all_directories := [child output_base_dir "1.0A"];
               files := (sweep_step sample_header sample_atoms output_base_dir
                           1 [] blocked_fs).2 |} in
  let t := (sweep_step sample_header sample_atoms output_base_dir
              1.5 (all_directories st) (files st)).2 in
  increment_and_write_xyz (1 + 1) input_xyz output_base_dir 1 2 0.5 blocked_fs
    = (Raised FileExistsError, t) /\
  t !! manifest output_base_dir = blocked_fs !! manifest output_base_dir /\
  length (all_directories st) = 1%nat /\
  Forall (fun d => is_dir t d = true) (all_directories st).
Proof.
  cbv zeta.
  refine (C9_failure_no_manifest 0 input_xyz output_base_dir 1 2 0.5 blocked_fs
            sample_geometry 1
            {| current_y := 1.5;
               all_directories := [child output_base_dir "1.0A"];
               files := (sweep_step sample_header sample_atoms output_base_dir
                           1 [] blocked_fs).2 |}
            FileExistsError _ _ _ _ _); [by_computation | | by_computation..].
  refine (iterates_turn _ _ _ _ _ 0 _ [child output_base_dir "1.0A"]
            (sweep_step sample_header sample_atoms output_base_dir
               1 [] blocked_fs).2 _ _ _ (iterates_here _ _ _ _ _ _));
    by_computation.
Defined.

(** C10: when start is above stop the generator makes no turn of the
    loop, for any step and any fuel: it reads the input and opens the
    manifest for writing with nothing to write. When the input file can
    be read, the output root is a directory and the manifest path is not
    one, the call completes and the file system differs from the one
    before only at the manifest path, which holds the empty file. *)
Theorem C10_empty_sweep fuel inp out start stop step s :
  PrimFloat.ltb stop start = true ->
  increment_and_write_xyz fuel inp out start stop step s =
    bind (read_text inp) (fun _ => write_text (manifest out) EmptyString) s /\
  forall content,
    node_at s inp = Some (File content) ->
    is_dir s out = true ->
    node_at s (manifest out) <> Some Dir ->
    increment_and_write_xyz fuel inp out start stop step s =
      (Done tt, <[manifest out := File EmptyString]> s).
Proof.
  intros Hlt.
  assert (E := no_turn fuel inp out start stop step s (ltb_not_leb _ _ Hlt)).
  split; [exact E|].
  intros content Hin Hout Hm. rewrite E.
  unfold bind, read_text. rewrite Hin.
  unfold write_text, manifest, parent, child. rewrite removelast_last.
  unfold is_dir in Hout.
  destruct (node_at s out) as [[|]|]; try discriminate Hout.
  fold (child out ".list.dirs"). fold (manifest out).
  by destruct (node_at s (manifest out)) as [[|]|].
Qed.

(** C10 on a file system with a manifest of two lines left by an earlier
    run: the manifest is emptied. *)
Lemma C10_witness :
  stale_fs !! manifest output_base_dir = Some (File (lines_text ["1.5A"; "1.6A"])) /\
  increment_and_write_xyz 0 input_xyz output_base_dir 2 1 0.5 stale_fs =
    (Done tt, <[manifest output_base_dir := File EmptyString]> stale_fs).
Proof.
  split; [by_computation|].
  refine (proj2 (C10_empty_sweep 0 input_xyz output_base_dir 2 1 0.5 stale_fs _)
            sample_geometry _ _ _); try by_computation.
  intros H. vm_compute in H. discriminate H.
Defined.

End Claims.

(** ** What a run can reach *)

Module Reach.

Lemma touched_refl out s q : touched out s s q.
Proof. by left. Qed.

Lemma touched_trans out s u t q :
  touched out s u q -> touched out u t q -> touched out s t q.
Proof.
  intros [E1|[(P1 & N1 & D1)|B1]] [E2|[(P2 & N2 & D2)|B2]];
    try (right; right; assumption).
  - left. congruence.
  - right. left. split_and!; [done | congruence | done].
  - right. left. split_and!; [done | done | congruence].
  - congruence.
Qed.

Lemma below_child out c q : child out c `prefix_of` q -> out `prefix_of` q /\ q <> out.
Proof.
  unfold child. intros [k ->]. split.
  - exists ([c] ++ k). by rewrite app_assoc.
  - rewrite <- app_assoc. intros E.
    apply (f_equal length) in E. rewrite !List.length_app in E. cbn in E. lia.
Qed.

Lemma sweep_step_touched h a out y dirs s q :
  touched out s (sweep_step h a out y dirs s).2 q.
Proof.
  unfold sweep_step.
  destruct (modified_atoms y a) as [modified|e]; cbn [lift]; [|apply touched_refl].
  unfold bind at 1. cbn [ret].
  assert (F1 := path_mkdir_made (length (increment_dir out y)) true true
                  (increment_dir out y) s q).
  fold (mkdir true true (increment_dir out y)) in F1.
  assert (R1 : touched out s (mkdir true true (increment_dir out y) s).2 q).
  { destruct F1 as [F1|(N & D & F1)]; [by left|].
    apply prefix_child in F1 as [F1| ->].
    - right. left. done.
    - right. right. by apply (below_child out (dir_name y)). }
  clear F1. unfold bind at 1.
  destruct (mkdir true true (increment_dir out y) s) as [[[]| |] s1];
    cbn in R1; try exact R1.
  eapply touched_trans; [exact R1|]. clear R1.
  unfold bind at 1.
  destruct (write_text_spec (increment_file out y) (xyz_text h modified) s1)
    as [[e ->]|(-> & _ & _)]; [apply touched_refl|].
  assert (R2 : touched out s1
                 (<[increment_file out y := File (xyz_text h modified)]> s1) q).
  { destruct (decide (increment_file out y = q)) as [<-|Hne].
    - right. right. apply (below_child out (dir_name y)).
      apply prefix_child_child.
    - left. by rewrite lookup_insert_ne. }
  set (s2 := <[increment_file out y := File (xyz_text h modified)]> s1) in *.
  unfold bind at 1.
  destruct (copy_spec (increment_file out y) (struc_file out y) s2)
    as [[e ->]|(c & _ & -> & _ & _ & _)]; [exact R2|].
  cbn. eapply touched_trans; [exact R2|].
  destruct (decide (copy_target s2 (increment_file out y) (struc_file out y) = q))
    as [<-|Hne2]; [|left; by rewrite lookup_insert_ne].
  right. right. apply (below_child out (dir_name y)). unfold copy_target.
  destruct (is_dir s2 (struc_file out y)).
  - etrans; [apply prefix_child_child | by eexists].
  - apply prefix_child_child.
Qed.

Lemma sweep_touched fuel h a out stop step y dirs s q :
  touched out s (sweep fuel h a out stop step y dirs s).2 q.
Proof.
  revert y dirs s. induction fuel as [|fuel IH]; intros y dirs s; cbn.
  - destruct (PrimFloat.leb y stop); apply touched_refl.
  - destruct (PrimFloat.leb y stop); [|apply touched_refl].
    unfold bind.
    assert (G := sweep_step_touched h a out y dirs s q).
    destruct (sweep_step h a out y dirs s) as [[D| |] s1]; cbn in G; try exact G.
    eapply touched_trans; [exact G | apply IH].
Qed.

(** X1: whatever the outcome of a run, every path is left as it was,
    or was missing on the way to the output root and is now a directory,
    or lies strictly below the output root. *)
Theorem generator_frame fuel inp out start stop step s q :
  touched out s (increment_and_write_xyz fuel inp out start stop step s).2 q.
Proof.
  unfold increment_and_write_xyz. unfold bind at 1. unfold read_text.
  destruct (node_at s inp) as [[|content]|]; try apply touched_refl.
  unfold bind at 1.
  assert (G := sweep_touched fuel (take 2 (readlines content))
                 (drop 2 (readlines content)) out stop step start [] s q).
  destruct (sweep fuel _ _ out stop step start [] s) as [[D| |] s1];
    cbn in G; try exact G.
  eapply touched_trans; [exact G|].
  destruct (write_text_spec (manifest out) (manifest_text D) s1)
    as [[e ->]|(-> & _ & _)]; [apply touched_refl|].
  cbn. destruct (decide (manifest out = q)) as [<-|Hne].
  - right. right. by apply (below_child out ".list.dirs").
  - left. by rewrite lookup_insert_ne.
Qed.

(** X2: whatever the outcome of a run, no path that existed before it
    is gone after it, and none has changed from a file to a directory or
    from a directory to a file. *)
Theorem generator_grows fuel inp out start stop step s :
  grows s (increment_and_write_xyz fuel inp out start stop step s).2.
Proof.
  unfold increment_and_write_xyz. unfold bind at 1. unfold read_text.
  destruct (node_at s inp) as [[|content]|]; try apply grows_refl.
  unfold bind at 1.
  assert (G := sweep_grows fuel (take 2 (readlines content))
                 (drop 2 (readlines content)) out stop step start [] s).
  destruct (sweep fuel _ _ out stop step start [] s) as [[D| |] s1];
    cbn in G; try exact G.
  eapply grows_trans; [exact G|]. apply write_text_grows.
Qed.

End Reach.

(** ** Atom lines, accepted and refused *)

Module AtomLines.
Import Examples.

(** X3: an atom line goes through the body of the [for] loop without
    an exception exactly when it has at least four tokens of which the
    second, third and fourth are accepted by [float]; the value of the
    sweep plays no part in it. *)
Theorem atom_accepted_iff y atom :
  (exists line, modified_atom y atom = Ok line) <-> well_formed atom = true.
Proof.
  split.
  - intros [line Hl]. destruct (well_formed atom) eqn:Hw; [done|].
    destruct (modified_atom_malformed y atom Hw) as (e & _ & He). congruence.
  - apply modified_atom_well_formed.
Qed.

Lemma index_take parts i : (i < 4)%nat -> index (take 4 parts) i = index parts i.
Proof. intros Hi. unfold index. by rewrite lookup_take_lt. Qed.

Lemma formatted_atom_take parts :
  formatted_atom (take 4 parts) = formatted_atom parts.
Proof. unfold formatted_atom. by rewrite !index_take by lia. Qed.

Lemma selected_take parts : selected (take 4 parts) = selected parts.
Proof. unfold selected. by rewrite !index_take by lia. Qed.

Lemma modified_atom_take y atom :
  modified_atom y atom =
  rbind (selected (take 4 (split atom)))
    (fun sel => formatted_atom
                  (if sel then <[2%nat := format_f 6 y]> (take 4 (split atom))
                   else take 4 (split atom))).
Proof.
  unfold modified_atom. rewrite selected_take.
  destruct (selected (split atom)) as [[|]|e]; cbn; [|by rewrite formatted_atom_take|done].
  rewrite <- take_insert_lt by lia. by rewrite formatted_atom_take.
Qed.

(** X4: only the first four tokens of an atom line are read: two lines
    that agree on them give the same outcome, line or exception. *)
Theorem extra_tokens_ignored y atom atom' :
  take 4 (split atom) = take 4 (split atom') ->
  modified_atom y atom = modified_atom y atom'.
Proof. intros E. rewrite !modified_atom_take. by rewrite E. Qed.

Lemma extra_tokens_ignored_witness :
  modified_atom 3 "H 1.0 0.5 0.0 # hydrogen, fixed"
  = modified_atom 3 "H 1.0 0.5 0.0".
Proof.
  refine (extra_tokens_ignored 3 "H 1.0 0.5 0.0 # hydrogen, fixed"
            "H 1.0 0.5 0.0" _).
  by_computation.
Defined.

(** X6: a line of four tokens or more never raises [IndexError]; a
    line of fewer than four tokens whose tokens after the first are all
    accepted by [float] raises [IndexError]. *)
Theorem index_error_iff_short y atom :
  ((4 <= length (split atom))%nat -> modified_atom y atom <> Err IndexError) /\
  ((length (split atom) < 4)%nat ->
   forallb numeric (drop 1 (split atom)) = true ->
   modified_atom y atom = Err IndexError).
Proof.
  assert (Hp := format_f_parses 6 y). destruct Hp as [y' Hp].
  unfold modified_atom, selected, formatted_atom, numeric, index, float_, rbind.
  destruct (split atom) as [|sym [|tx [|ty [|tz rest]]]]; cbn; split;
    try lia; try done; intros _.
  - intros _. destruct (String.eqb sym "O"); cbn; done.
  - destruct (float_of_string tx) eqn:Ex; [|done]. intros _.
    destruct (String.eqb sym "O"); cbn; rewrite ?Ex; done.
  - destruct (float_of_string tx) eqn:Ex; [|done].
    destruct (float_of_string ty) as [y0|] eqn:Ey; [|done]. intros _.
    destruct (String.eqb sym "O"); cbn; rewrite ?Ex, ?Ey; cbn; [|done].
    destruct (PrimFloat.eqb y0 sentinel); cbn; rewrite ?Ex, ?Ey, ?Hp; done.
  - line_cases.
Qed.

Lemma index_error_iff_short_witness :
  modified_atom 3 "O 1.0 2.0" = Err IndexError.
Proof.
  refine (proj2 (index_error_iff_short 3 "O 1.0 2.0") _ _); vm_compute;
    (lia || reflexivity).
Defined.

End AtomLines.

(** ** The lines that are written *)

Module OutputLines.
Import Examples.

(** X5: a line the loop produces splits into exactly four tokens, the
    first token of the input line and three numbers with eight decimals;
    it is therefore itself an atom line the loop accepts. *)
Theorem output_line_fields y atom line :
  modified_atom y atom = Ok line ->
  exists sym x y' z,
    split atom !! 0%nat = Some sym /\
    split line = [sym; format_f 8 x; format_f 8 y'; format_f 8 z] /\
    well_formed line = true.
Proof.
  intros H. unfold modified_atom, rbind in H.
  destruct (selected (split atom)) as [sel|] eqn:Hsel; [|discriminate].
  apply formatted_atom_ok in H
    as (sym & tx & ty & tz & x & y' & z & P0 & _ & _ & _ & _ & _ & _ & ->).
  assert (H0 : split atom !! 0%nat = Some sym).
  { destruct sel; [|done].
    destruct (split atom) as [|? [|? [|? ?]]]; cbn in *; done. }
  assert (Hs : token sym).
  { eapply (proj1 (Forall_lookup _ _) (split_tokens atom)). exact H0. }
  assert (Hsplit := split_canonical sym x y' z Hs (format_f_token 8 x)
                      (format_f_token 8 y') (format_f_token 8 z)).
  exists sym, x, y', z. split; [done|]. split; [done|].
  unfold well_formed, numeric. rewrite Hsplit.
  destruct (format_f_parses 8 x) as [? ->], (format_f_parses 8 y') as [? ->],
    (format_f_parses 8 z) as [? ->]. done.
Qed.

Lemma output_line_fields_witness :
  exists sym x y' z,
    split hydrogen_line !! 0%nat = Some sym /\
    split "H      1.00000000     0.50000000     0.00000000"
      = [sym; format_f 8 x; format_f 8 y'; format_f 8 z] /\
    well_formed "H      1.00000000     0.50000000     0.00000000" = true.
Proof.
  refine (output_line_fields 3 hydrogen_line
            "H      1.00000000     0.50000000     0.00000000" _).
  by_computation.
Defined.

End OutputLines.

(** ** Short and empty sweeps, and the geometry file *)

Module Runs.
Import Examples.

(** X7: when the start is within the bound and start plus step is
    beyond it, a completed run has made exactly one step: the manifest is
    the single name of the start value, and its directory exists. *)
Theorem single_step fuel inp out start stop step s t :
  PrimFloat.leb start stop = true ->
  PrimFloat.leb (PrimFloat.add start step) stop = false ->
  increment_and_write_xyz (S fuel) inp out start stop step s = (Done tt, t) ->
  sweep_values (S fuel) stop step start = Some [start] /\
  t !! manifest out = Some (File (dir_name start +:+ NL)) /\
  is_dir t (increment_dir out start) = true.
Proof.
  intros Hle Hgt H.
  assert (Hv : sweep_values (S fuel) stop step start = Some [start]).
  { cbn. rewrite Hle. destruct fuel; cbn; by rewrite Hgt. }
  apply generator_done in H as (vs & Hvs & Hm & Hd).
  rewrite Hv in Hvs. injection Hvs as <-.
  split; [done|]. split.
  - rewrite Hm. reflexivity.
  - by apply Forall_inv in Hd.
Qed.

Lemma single_step_witness :
  sweep_values 1 1 1 1 = Some [1%float] /\
  (increment_and_write_xyz 1 input_xyz output_base_dir 1 1 1 sample_fs).2
    !! manifest output_base_dir = Some (File (dir_name 1 +:+ NL)) /\
  is_dir (increment_and_write_xyz 1 input_xyz output_base_dir 1 1 1 sample_fs).2
    (increment_dir output_base_dir 1) = true.
Proof.
  refine (single_step 0 input_xyz output_base_dir 1 1 1 sample_fs
            (increment_and_write_xyz 1 input_xyz output_base_dir 1 1 1
               sample_fs).2 _ _ _); by_computation.
Defined.

Lemma leb_nan (x y : float) :
  PrimFloat.is_nan x || PrimFloat.is_nan y = true -> PrimFloat.leb x y = false.
Proof.
  rewrite leb_spec. unfold SFleb, Prim2SF.
  destruct (PrimFloat.is_nan x); [done|].
  destruct (PrimFloat.is_nan y); [|done]. intros _.
  match goal with |- context [SFcompare ?a S754_nan] => by destruct a end.
Qed.

(** X8: when the start or the bound is not a number, the test of the
    [while] loop fails at once: the run reads the input file and writes
    an empty manifest, and nothing else. *)
Theorem nan_bound_no_step fuel inp out start stop step s :
  PrimFloat.is_nan start || PrimFloat.is_nan stop = true ->
  increment_and_write_xyz fuel inp out start stop step s =
  bind (read_text inp) (fun _ => write_text (manifest out) EmptyString) s.
Proof. intros H. apply no_turn. by apply leb_nan. Qed.

Lemma nan_bound_no_step_witness :
  increment_and_write_xyz 0 input_xyz output_base_dir nan 8 1 sample_fs
  = (Done tt, <[manifest output_base_dir := File EmptyString]> sample_fs).
Proof.
  rewrite (nan_bound_no_step 0 input_xyz output_base_dir nan 8 1 sample_fs
             eq_refl).
  by_computation.
Defined.

(** X9: an empty sweep makes no directory, so when the output root is
    missing below an existing directory, the manifest cannot be opened:
    the run raises [FileNotFoundError] and leaves the file system as it
    was. *)
Theorem empty_sweep_needs_root fuel inp out start stop step s content :
  PrimFloat.leb start stop = false ->
  node_at s inp = Some (File content) ->
  is_dir s (parent out) = true ->
  node_at s out = None ->
  increment_and_write_xyz fuel inp out start stop step s
  = (Raised FileNotFoundError, s).
Proof.
  intros Hle Hin _ Hout. rewrite no_turn by done.
  unfold bind, read_text. rewrite Hin.
  unfold write_text, manifest, parent, child.
  by rewrite removelast_last, Hout.
Qed.

Lemma empty_sweep_needs_root_witness :
  increment_and_write_xyz 0 input_xyz output_base_dir 2 1 1
    (<[input_xyz := File sample_geometry]> ∅)
  = (Raised FileNotFoundError, <[input_xyz := File sample_geometry]> ∅).
Proof.
  refine (empty_sweep_needs_root 0 input_xyz output_base_dir 2 1 1
            (<[input_xyz := File sample_geometry]> ∅) sample_geometry _ _ _ _);
    by_computation.
Defined.

Lemma lines_text_cons x l : lines_text (x :: l) = x +:+ NL +:+ lines_text l.
Proof.
  unfold lines_text. destruct l as [|x' l]; cbn [map String.concat].
  - by rewrite append_empty.
  - change (EmptyString +:+ ?r) with r. by rewrite append_assoc.
Qed.

Lemma join_lines l : l <> [] -> join NL l +:+ NL = lines_text l.
Proof.
  induction l as [|x l IH]; [done|]. intros _.
  rewrite lines_text_cons. destruct l as [|x' l].
  - cbn [join]. unfold lines_text. cbn. by rewrite append_empty.
  - change (join NL (x :: x' :: l)) with (x +:+ NL +:+ join NL (x' :: l)).
    rewrite !append_assoc. by rewrite IH.
Qed.

(** X10: the geometry file of a completed step is the header lines as
    they were read, followed by one line per atom line, each ended by a
    line break; with no atom line at all, the header is followed by a
    single line break. *)
Theorem geometry_file_shape h a out y dirs s D t :
  sweep_step h a out y dirs s = (Done D, t) ->
  exists modified,
    modified_atoms y a = Ok modified /\
    length modified = length a /\
    t !! increment_file out y =
      Some (File (String.concat EmptyString h +:+
                  match a with
                  | [] => NL
                  | _ => lines_text modified
                  end)).
Proof.
  intros H. apply sweep_step_files in H as (modified & Hm & Hf & _).
  exists modified. split; [done|].
  assert (Hl := modified_atoms_length _ _ _ Hm). split; [done|].
  rewrite Hf. unfold xyz_text. destruct a as [|x a].
  - by destruct modified.
  - rewrite join_lines; [done|]. by destruct modified.
Qed.

Lemma geometry_file_shape_witness :
  exists modified,
    modified_atoms 1 [] = Ok modified /\
    length modified = length (@nil string) /\
    (sweep_step sample_header [] output_base_dir 1 [] sample_fs).2
      !! increment_file output_base_dir 1 =
      Some (File (String.concat EmptyString sample_header +:+ NL)).
Proof.
  refine (geometry_file_shape sample_header [] output_base_dir 1 [] sample_fs
            [increment_dir output_base_dir 1]
            (sweep_step sample_header [] output_base_dir 1 [] sample_fs).2 _).
  by_computation.
Defined.

(** X18: when [struc.xyz] is not a directory in the step's directory
    before the step, a step that completes leaves two files there, the
    geometry file and [struc.xyz], with the same bytes. *)
Theorem copy_beside h a out y dirs s D t :
  is_dir s (struc_file out y) = false ->
  sweep_step h a out y dirs s = (Done D, t) ->
  exists bytes,
    t !! increment_file out y = Some (File bytes) /\
    t !! struc_file out y = Some (File bytes).
Proof.
  intros Hd H. apply sweep_step_files in H as (modified & _ & Hf & Hc).
  exists (xyz_text h modified). split; [exact Hf|].
  unfold copy_target in Hc. by rewrite Hd in Hc.
Qed.

Lemma copy_beside_witness :
  exists bytes,
    (sweep_step sample_header sample_atoms output_base_dir 1 [] sample_fs).2
      !! increment_file output_base_dir 1 = Some (File bytes) /\
    (sweep_step sample_header sample_atoms output_base_dir 1 [] sample_fs).2
      !! struc_file output_base_dir 1 = Some (File bytes).
Proof.
  refine (copy_beside sample_header sample_atoms output_base_dir 1 []
            sample_fs [increment_dir output_base_dir 1]
            (sweep_step sample_header sample_atoms output_base_dir 1 []
               sample_fs).2 _ _); by_computation.
Defined.

End Runs.

(** ** Names written twice, and the script's own failures *)

Module Outcomes.
Import Examples.

(** A step of another name does not reach the geometry file of [v]. *)
Lemma in_reach_file out w v :
  in_reach out w (increment_file out v) -> dir_name w = dir_name v.
Proof.
  unfold in_reach, increment_file, increment_dir, child. intros [H|[k H]].
  - apply prefix_length in H. rewrite !List.length_app in H. cbn in H. lia.
  - rewrite <- !app_assoc in H. apply app_inv_head in H. by injection H.
Qed.

Lemma sweep_done_keeps fuel h a out stop step q : forall y dirs s D t vs,
  sweep fuel h a out stop step y dirs s = (Done D, t) ->
  sweep_values fuel stop step y = Some vs ->
  (forall w, w ∈ vs -> ~ in_reach out w q) ->
  t !! q = s !! q.
Proof.
  induction fuel as [|fuel IH]; intros y dirs s D t vs; cbn.
  - destruct (PrimFloat.leb y stop); [discriminate|]. by intros [= <- <-].
  - destruct (PrimFloat.leb y stop); [|by intros [= <- <-]].
    intros H Hv Hq. unfold bind at 1 in H.
    destruct (sweep_step h a out y dirs s) as [[D1| |] s1] eqn:E;
      try discriminate H.
    destruct (sweep_values fuel stop step (PrimFloat.add y step)) as [vs'|] eqn:Ev;
      [|discriminate].
    cbn in Hv. injection Hv as <-.
    rewrite (IH _ _ _ _ _ _ H Ev) by (intros w Hw; apply Hq; by right).
    destruct (sweep_step_frame h a out y dirs s q) as [F|F].
    + by rewrite E in F.
    + destruct (Hq y); [by left | done].
Qed.

Lemma sweep_done_files fuel h a out stop step : forall y dirs s D t vs i v,
  sweep fuel h a out stop step y dirs s = (Done D, t) ->
  sweep_values fuel stop step y = Some vs ->
  vs !! i = Some v ->
  (forall j w, (i < j)%nat -> vs !! j = Some w -> dir_name w <> dir_name v) ->
  exists modified,
    modified_atoms v a = Ok modified /\
    t !! increment_file out v = Some (File (xyz_text h modified)).
Proof.
  induction fuel as [|fuel IH]; intros y dirs s D t vs i v; cbn.
  - destruct (PrimFloat.leb y stop); [discriminate|].
    intros _ [= <-]. done.
  - destruct (PrimFloat.leb y stop); [|intros _ [= <-]; done].
    intros H Hv Hi Hlater. unfold bind at 1 in H.
    destruct (sweep_step h a out y dirs s) as [[D1| |] s1] eqn:E;
      try discriminate H.
    destruct (sweep_values fuel stop step (PrimFloat.add y step)) as [vs'|] eqn:Ev;
      [|discriminate].
    cbn in Hv. injection Hv as <-.
    destruct i as [|i]; cbn in Hi.
    + injection Hi as <-.
      apply sweep_step_files in E as (modified & Hm & Hf & _).
      exists modified. split; [done|].
      rewrite (sweep_done_keeps _ _ _ _ _ _ _ _ _ _ _ _ _ H Ev); [done|].
      intros w Hw Hr. apply in_reach_file in Hr.
      apply list_elem_of_lookup in Hw as [j Hj].
      by apply (Hlater (S j) w ltac:(lia)).
    + eapply IH; eauto.
      intros j w Hj Hw. apply (Hlater (S j) w); [lia | done].
Qed.

(** X11: in a completed run, for each sweep value that no later value
    shares its directory name with, the geometry file of that name holds
    the atoms modified with that value: of several values with one name,
    the last one is what stays. *)
Theorem last_write_wins fuel inp out start stop step s content t :
  node_at s inp = Some (File content) ->
  increment_and_write_xyz fuel inp out start stop step s = (Done tt, t) ->
  exists vs,
    sweep_values fuel stop step start = Some vs /\
    forall i v,
      vs !! i = Some v ->
      (forall j w, (i < j)%nat -> vs !! j = Some w -> dir_name w <> dir_name v) ->
      exists modified,
        modified_atoms v (drop 2 (readlines content)) = Ok modified /\
        t !! increment_file out v
          = Some (File (xyz_text (take 2 (readlines content)) modified)).
Proof.
  intros Hin H. unfold increment_and_write_xyz in H.
  unfold bind at 1 in H. unfold read_text in H. rewrite Hin in H.
  unfold bind at 1 in H.
  destruct (sweep fuel _ _ out stop step start [] s) as [[D| |] s1] eqn:E;
    try discriminate H.
  destruct (sweep_done_values _ _ _ _ _ _ _ _ _ _ _ E) as (vs & Hv & _ & _).
  exists vs. split; [done|]. intros i v Hi Hlater.
  destruct (sweep_done_files _ _ _ _ _ _ _ _ _ _ _ _ _ _ E Hv Hi Hlater)
    as (modified & Hm & Hf).
  exists modified. split; [done|].
  apply write_text_done in H as (-> & _ & _).
  rewrite lookup_insert_ne; [done|].
  unfold manifest, increment_file, increment_dir, child. intros Eq.
  apply (f_equal length) in Eq. rewrite !List.length_app in Eq. cbn in Eq. lia.
Qed.

Lemma last_write_wins_witness :
  exists vs,
    sweep_values 3 1.5625 0.03125 1.5 = Some vs /\
    forall i v,
      vs !! i = Some v ->
      (forall j w, (i < j)%nat -> vs !! j = Some w -> dir_name w <> dir_name v) ->
      exists modified,
        modified_atoms v (drop 2 (readlines sample_geometry)) = Ok modified /\
        (increment_and_write_xyz 3 input_xyz output_base_dir 1.5 1.5625 0.03125
           sample_fs).2 !! increment_file output_base_dir v
          = Some (File (xyz_text (take 2 (readlines sample_geometry)) modified)).
Proof.
  refine (last_write_wins 3 input_xyz output_base_dir 1.5 1.5625 0.03125
            sample_fs sample_geometry
            (increment_and_write_xyz 3 input_xyz output_base_dir 1.5 1.5625
               0.03125 sample_fs).2 _ _); by_computation.
Defined.

(** X12: when a regular file stands at the output root, the script
    raises [FileExistsError] from its [mkdir], before the input is read,
    and changes nothing. *)
Theorem script_root_is_file fuel s bytes :
  node_at s output_base_dir = Some (File bytes) ->
  script fuel s = (Raised FileExistsError, s).
Proof.
  intros H. unfold script, bind, mkdir. cbn [length output_base_dir path_mkdir].
  unfold os_mkdir, is_dir. rewrite H. reflexivity.
Qed.

Lemma script_root_is_file_witness :
  script 66 (<[output_base_dir := File "x"]> ∅)
  = (Raised FileExistsError, <[output_base_dir := File "x"]> ∅).
Proof.
  refine (script_root_is_file 66 (<[output_base_dir := File "x"]> ∅) "x" _).
  by_computation.
Defined.

(** X13: when neither the output root nor the input file exists, the
    script raises [FileNotFoundError]; the output root has been made by
    then and stays behind, empty. *)
Theorem script_missing_input fuel s :
  node_at s output_base_dir = None ->
  node_at s input_xyz = None ->
  script fuel s = (Raised FileNotFoundError, <[output_base_dir := Dir]> s).
Proof.
  intros Hout Hin. unfold script, bind at 1, mkdir.
  cbn [length output_base_dir path_mkdir].
  unfold os_mkdir. rewrite Hout.
  change (node_at s (parent output_base_dir)) with (Some Dir). cbv beta iota.
  unfold increment_and_write_xyz, bind, read_text.
  rewrite node_at_insert_ne by done. by rewrite Hin.
Qed.

Lemma script_missing_input_witness :
  script 66 ∅ = (Raised FileNotFoundError, <[output_base_dir := Dir]> ∅).
Proof.
  refine (script_missing_input 66 ∅ _ _); by_computation.
Defined.

End Outcomes.

(** ** The charge plot: methods and CID entries *)

Module ChargesFacts.
Import Charges.

Lemma solvated_not_gas m : solvated m = negb (gas_phase m).
Proof.
  unfold solvated, gas_phase.
  by destruct (endswith m "_DIELECTRIC"), (endswith m "_CPCM").
Qed.

(** X14: with [--gas] and [--solvation] both given, no method is
    left. *)
Theorem gas_and_solvation_select_nothing methods :
  select_methods true true methods = [].
Proof.
  unfold select_methods. induction methods as [|m methods IH]; [done|].
  cbn. destruct (gas_phase m) eqn:E; [|exact IH].
  cbn. rewrite solvated_not_gas, E. exact IH.
Qed.

(** X15: [--gas] alone and [--solvation] alone split the methods in
    two: each selection keeps the order of the methods, no method is in
    both, and together they are the methods, each as often as it was
    listed. *)
Theorem gas_or_solvation_split methods :
  select_methods true false methods ++ select_methods false true methods
    ≡ₚ methods /\
  (forall m, m ∈ select_methods true false methods ->
             m ∉ select_methods false true methods) /\
  sublist (select_methods true false methods) methods /\
  sublist (select_methods false true methods) methods.
Proof.
  unfold select_methods. split; [|split; [|split]].
  - induction methods as [|m methods IH]; [done|].
    cbn. rewrite solvated_not_gas. destruct (gas_phase m); cbn.
    + by rewrite IH.
    + rewrite <- Permutation_middle. by rewrite IH.
  - intros m H1 H2. apply list_elem_of_In, filter_In in H1 as [_ H1].
    apply list_elem_of_In, filter_In in H2 as [_ H2].
    rewrite solvated_not_gas, H1 in H2. done.
  - induction methods as [|m methods IH]; [done|].
    cbn. destruct (gas_phase m); by constructor.
  - induction methods as [|m methods IH]; [done|].
    cbn. destruct (solvated m); by constructor.
Qed.

Lemma remove_char_absent c s :
  all_chars (fun d => negb (Ascii.eqb d c)) s = true -> remove_char c s = s.
Proof.
  induction s as [|d s IH]; [done|]. cbn.
  intros [Hd Hs]%andb_prop. destruct (Ascii.eqb d c); [done|]. by rewrite IH.
Qed.

Lemma remove_char_app c a b :
  remove_char c (a +:+ b) = remove_char c a +:+ remove_char c b.
Proof.
  induction a as [|d a IH]; [done|].
  change (String d a +:+ b) with (String d (a +:+ b)). cbn.
  destruct (Ascii.eqb d c); [done|].
  change (String d ?x +:+ ?y) with (String d (x +:+ y)). by rewrite IH.
Qed.

(** X16: the name of a directory the generator makes is a CID entry
    the charge plot converts without an error: removing the ["A"] leaves
    the sweep value written with one decimal, which [float] reads. *)
Theorem cid_of_dir_name y :
  cid_value (dir_name y) = float_of_string (format_f 1 y) /\
  is_Some (cid_value (dir_name y)).
Proof.
  assert (E : cid_value (dir_name y) = float_of_string (format_f 1 y)).
  { unfold cid_value, dir_name. rewrite remove_char_app.
    rewrite remove_char_absent.
    - cbn. by rewrite append_empty.
    - eapply all_chars_impl, format_f_chars.
      intros [[] [] [] [] [] [] [] []]; (discriminate || reflexivity). }
  split; [exact E|]. rewrite E. apply format_f_parses.
Qed.

End ChargesFacts.

(** ** The energy plot: the reset to the dissociation limit *)

Module EnergiesFacts.
Import Examples.
Import Energies.

Lemma finite_cases (r : float) :
  PrimFloat.is_finite r = true ->
  (exists s, Prim2SF r = S754_zero s) \/ (exists s m e, Prim2SF r = S754_finite s m e).
Proof.
  unfold PrimFloat.is_finite, Prim2SF.
  destruct (PrimFloat.is_nan r); [done|].
  destruct (PrimFloat.is_infinity r); [done|]. intros _.
  destruct (PrimFloat.is_zero r); [eauto|].
  destruct (Z.frexp r) as [m e].
  destruct (shr_fexp _ _ _ _ _) as [shr e'].
  destruct (shr_m shr); eauto.
Qed.

Lemma sub_self (r : float) :
  PrimFloat.is_finite r = true -> PrimFloat.sub r r = 0%float.
Proof.
  intros H. apply Prim2SF_inj. rewrite sub_spec.
  change (Prim2SF 0) with (S754_zero false).
  destruct (finite_cases r H) as [[s ->]|(s & m & e & ->)].
  - by destruct s.
  - unfold SF64sub, SFsub. by rewrite Z.sub_diag.
Qed.

Lemma sub_zero (x : float) : PrimFloat.sub x 0 = x.
Proof.
  apply Prim2SF_inj. rewrite sub_spec.
  change (Prim2SF 0) with (S754_zero false).
  destruct (Prim2SF x) as [s|s| |s m e]; try done. by destruct s.
Qed.

Lemma last_map {A B} (f : A -> B) (l : list A) : last (map f l) = f <$> last l.
Proof.
  induction l as [|x l IH]; [done|].
  destruct l as [|y l]; [done|]. exact IH.
Qed.

(** Methods other than the reference, processed while the reference
    column ends in [r]. *)
Lemma reset_others ref r : forall methods (df : frame) ref_col,
  df !! ref = Some ref_col -> last ref_col = Some r ->
  ref ∉ methods -> NoDup methods ->
  (forall m, m ∈ methods -> is_Some (df !! m)) ->
  exists df' : frame,
    reset_to_limit ref methods df = Fine df' /\
    (forall m, m ∈ methods -> df' !! m = shifted r <$> df !! m) /\
    (forall m, m ∉ methods -> df' !! m = df !! m).
Proof.
  induction methods as [|m methods IH]; intros df ref_col Href Hlast Hnin Hnd Hcols.
  - exists df. split; [done|]. split; [|done]. intros m Hm. by apply elem_of_nil in Hm.
  - apply not_elem_of_cons in Hnin as [Hne Hnin].
    apply NoDup_cons in Hnd as [Hm Hnd].
    destruct (Hcols m) as [col Hcol]; [by left|].
    cbn. unfold shift_and_scale, column, iloc_last.
    rewrite Href, Hlast, Hcol, lookup_insert_eq.
    set (df1 := <[m := map (fun x => PrimFloat.mul x HARTREE_TO_KCAL)
                         (map (fun x => PrimFloat.sub x r) col)]>
                  (<[m := map (fun x => PrimFloat.sub x r) col]> df)).
    destruct (IH df1 ref_col) as (df' & Hrun & Hin & Hout); try done.
    { unfold df1. by rewrite !lookup_insert_ne. }
    { intros m' Hm'. unfold df1.
      rewrite !lookup_insert_ne by (intros ->; done). apply Hcols. by right. }
    exists df'. split; [done|]. split.
    + intros m' [->|Hm']%elem_of_cons.
      * rewrite (Hout m Hm). unfold df1. rewrite lookup_insert_eq, Hcol.
        cbn. unfold shifted. by rewrite map_map.
      * rewrite (Hin m' Hm'). unfold df1.
        by rewrite !lookup_insert_ne by (intros ->; done).
    + intros m' Hm'. apply not_elem_of_cons in Hm' as [Hne' Hm'].
      rewrite (Hout m' Hm'). unfold df1. by rewrite !lookup_insert_ne.
Qed.

Lemma shifted_zero col : shifted 0 col = scaled_only col.
Proof.
  unfold shifted, scaled_only. apply map_ext. intros x. by rewrite sub_zero.
Qed.

(** X17: the [--set-to-zero] loop depends on the order of the methods.
    With distinct methods, each a column, and a finite last value [r] in
    the reference column: the columns of the methods up to and including
    the reference are shifted by [r] and converted, the columns of the
    methods after it are converted only (the reference column ends in
    zero once its own turn has passed), and the other columns are left
    alone. *)
Theorem reset_depends_on_order before after ref (df : frame) ref_col r :
  NoDup (before ++ ref :: after) ->
  (forall m, m ∈ before ++ after -> is_Some (df !! m)) ->
  df !! ref = Some ref_col ->
  last ref_col = Some r ->
  PrimFloat.is_finite r = true ->
  exists df' : frame,
    reset_to_limit ref (before ++ ref :: after) df = Fine df' /\
    (forall m, m ∈ before ++ [ref] -> df' !! m = shifted r <$> df !! m) /\
    (forall m, m ∈ after -> df' !! m = scaled_only <$> df !! m) /\
    (forall m, m ∉ before ++ ref :: after -> df' !! m = df !! m).
Proof.
  intros Hnd Hcols Href Hlast Hfin.
  apply NoDup_app in Hnd as (Hnd1 & Hdisj & Hnd2).
  apply NoDup_cons in Hnd2 as [Hra Hnd2].
  assert (Hrb : ref ∉ before).
  { intros H. apply (Hdisj ref H). by left. }
  destruct (reset_others ref r before df ref_col) as (df1 & Hrun1 & Hin1 & Hout1);
    try done.
  { intros m Hm. apply Hcols. apply elem_of_app. by left. }
  (* the turn of the reference method *)
  assert (Href1 : df1 !! ref = Some ref_col) by (by rewrite (Hout1 ref Hrb)).
  set (df2 := <[ref := map (fun x => PrimFloat.mul x HARTREE_TO_KCAL)
                         (map (fun x => PrimFloat.sub x r) ref_col)]>
                (<[ref := map (fun x => PrimFloat.sub x r) ref_col]> df1)).
  assert (Hturn : shift_and_scale ref ref df1 = Fine df2).
  { unfold shift_and_scale, column, iloc_last.
    by rewrite Href1, Hlast, lookup_insert_eq. }
  assert (Href2 : df2 !! ref = Some (shifted r ref_col)).
  { unfold df2. rewrite lookup_insert_eq. unfold shifted. by rewrite map_map. }
  assert (Hlast2 : last (shifted r ref_col) = Some 0%float).
  { unfold shifted. rewrite last_map, Hlast. cbn. by rewrite sub_self. }
  destruct (reset_others ref 0%float after df2 (shifted r ref_col))
    as (df3 & Hrun3 & Hin3 & Hout3); try done.
  { intros m Hm. unfold df2.
    rewrite !lookup_insert_ne by (intros ->; done).
    assert (Hmb : m ∉ before) by (intros H; apply (Hdisj m H); by right).
    rewrite (Hout1 m Hmb). apply Hcols. apply elem_of_app. by right. }
  exists df3. split; [|split; [|split]].
  - clear -Hrun1 Hturn Hrun3. revert df Hrun1.
    induction before as [|b before IH]; intros df Hrun1; cbn in *.
    + injection Hrun1 as <-. by rewrite Hturn.
    + destruct (shift_and_scale ref b df); [by apply IH | done].
  - intros m [Hm| ->%list_elem_of_singleton]%elem_of_app.
    + assert (Hma : m ∉ after) by (intros H; apply (Hdisj m Hm); by right).
      rewrite (Hout3 m Hma). unfold df2.
      rewrite !lookup_insert_ne by (intros ->; done). by apply Hin1.
    + rewrite (Hout3 ref Hra), Href2. by rewrite Href.
  - intros m Hm. rewrite (Hin3 m Hm). unfold df2.
    rewrite !lookup_insert_ne by (intros ->; done).
    assert (Hmb : m ∉ before) by (intros H; apply (Hdisj m H); by right).
    rewrite (Hout1 m Hmb). destruct (df !! m); [|done]. cbn.
    by rewrite shifted_zero.
  - intros m Hm. apply not_elem_of_app in Hm as [Hmb Hm].
    apply not_elem_of_cons in Hm as [Hne Hma].
    rewrite (Hout3 m Hma). unfold df2. rewrite !lookup_insert_ne by done.
    by apply Hout1.
Qed.

Lemma reset_depends_on_order_witness :
  exists df' : frame,
    reset_to_limit "b" (["a"] ++ "b" :: ["c"]) sample_frame = Fine df' /\
    (forall m, m ∈ ["a"] ++ ["b"] -> df' !! m = shifted 1 <$> sample_frame !! m) /\
    (forall m, m ∈ ["c"] -> df' !! m = scaled_only <$> sample_frame !! m) /\
    (forall m, m ∉ ["a"] ++ "b" :: ["c"] -> df' !! m = sample_frame !! m).
Proof.
  refine (reset_depends_on_order ["a"] ["c"] "b" sample_frame [2; 1]%float 1
            _ _ _ _ _).
  - apply (bool_decide_unpack _). vm_cast_no_check I.
  - intros m [->|[->|[]%elem_of_nil]%elem_of_cons]%elem_of_cons; by eexists.
  - by_computation.
  - reflexivity.
  - reflexivity.
Defined.

End EnergiesFacts.
